(** * SharedLibrary.hpp: a shallow embedding of the dynamic-library wrapper

    The header declares an abstract class [SharedLibraryBase] (path, load-mode
    flag, [std::once_flag], native handle), two final backends and a batch
    binding helper.  Methods mutate [*this], call into the operating system's
    loader and may throw [std::runtime_error]; they are embedded here as
    computations of a state-and-exception monad over a machine made of the
    object, the loader's state and the caller's function-pointer variables. *)

From Stdlib Require Import ZArith NArith List String Ascii Bool Lia.
From stdpp Require Import base option list strings gmap.

Open Scope string_scope.

(** ** Pointers, results and the method monad *)

(** A [void*] or function pointer: its address, [nullptr] being 0. *)
Abbreviation pointer := N.
Abbreviation nullptr := 0%N.

Definition is_null (p : pointer) : bool := (p =? 0)%N.

(** [s.c_str()] read by a callee as a C string: a [std::string] may hold
    NUL characters, and what a [const char*] reader sees of it ends before
    the first one. *)
Fixpoint c_str (s : string) : string :=
  match s with
  | EmptyString => EmptyString
  | String a rest => if Ascii.eqb a Ascii.zero then EmptyString else String a (c_str rest)
  end.

(** The same for a [std::wstring] read through [const wchar_t*]. *)
Fixpoint wc_str (w : list N) : list N :=
  match w with
  | [] => []
  | c :: rest => if (c =? 0)%N then [] else c :: wc_str rest
  end.

(** How a call ends: it returns, it throws [std::runtime_error(what)], or it
    has undefined behaviour. *)
Inductive Result (A : Type) : Type :=
| Ok (a : A)
| Throw (what : string)
| Undefined.
Arguments Ok {A} a.
Arguments Throw {A} what.
Arguments Undefined {A}.

(** The object's data members, lines 146-151. [flag_] is [true] once a
    [call_once] on it has returned normally. *)
Record SharedLibraryBase : Type := mkBase {
  libPath_ : string;
  delayLoad_ : bool;
  flag_ : bool;
  handle_ : pointer
}.

(** [_FuncBinding<_Func>]: a symbol name and the address of the caller's
    function-pointer variable to fill. *)
Record _FuncBinding : Type := mkBinding {
  name : string;
  ptr : N
}.

(** [bind(name, out)], lines 292-295. *)
Definition bind (nm : string) (out : N) : _FuncBinding := mkBinding nm out.

Section Machine.
(** [W] is the state of the platform's loader. *)
Context {W : Type}.

Record Machine : Type := mkMachine {
  this : SharedLibraryBase;
  os : W;
  mem : gmap N pointer
}.

Definition M (A : Type) : Type := Machine -> Result A * Machine.

Definition M_ret {A} (a : A) : M A := fun m => (Ok a, m).

Definition M_bind {A B} (k : A -> M B) (c : M A) : M B := fun m =>
  match c m with
  | (Ok a, m') => k a m'
  | (Throw e, m') => (Throw e, m')
  | (Undefined, m') => (Undefined, m')
  end.

(** [throw std::runtime_error(what)] *)
Definition throw {A} (what : string) : M A := fun m => (Throw what, m).

Definition undefined_behaviour {A} : M A := fun m => (Undefined, m).

(** Reading a data member of [*this]. *)
Definition member {A} (f : SharedLibraryBase -> A) : M A :=
  fun m => (Ok (f (this m)), m).

Definition set_handle_ (h : pointer) : M unit := fun m =>
  let o := this m in
  (Ok tt, mkMachine (mkBase (libPath_ o) (delayLoad_ o) (flag_ o) h) (os m) (mem m)).

Definition set_flag_ (b : bool) : M unit := fun m =>
  let o := this m in
  (Ok tt, mkMachine (mkBase (libPath_ o) (delayLoad_ o) b (handle_ o)) (os m) (mem m)).

(** [*p = v] for a caller's function-pointer variable at address [p]. *)
Definition store (p : N) (v : pointer) : M unit := fun m =>
  (Ok tt, mkMachine (this m) (os m) (<[p := v]> (mem m))).

(** A call into the platform: a transition of the loader's state. *)
Definition platform {A} (f : W -> A * W) : M A := fun m =>
  let '(a, w) := f (os m) in (Ok a, mkMachine (this m) w (mem m)).
End Machine.

Arguments Machine W : clear implicits.
Arguments M W A : clear implicits.

#[export] Instance M_mret {W} : MRet (M W) := @M_ret W.
#[export] Instance M_mbind {W} : MBind (M W) := @M_bind W.

(** ** The base class *)

(** The separator [throwLastError] puts before [extra], byte for byte as the
    string literal of line 141 is stored in the file. *)
Definition bytes_to_string (l : list N) : string :=
  fold_right (fun b s => String (ascii_of_N b) s) EmptyString l.

Definition dash : string :=
  Eval cbv in bytes_to_string [195; 162; 226; 130; 172; 226; 128; 156]%N.

(** The protected pure virtual functions and [nativeHandle], lines 93 and
    132-135. *)
Class Backend (W : Type) : Type := mkBackend {
  nativeHandle : SharedLibraryBase -> pointer;
  nativeLoad : M W unit;
  nativeUnload : M W unit;
  rawGetSymbol : string -> M W pointer
}.

Section Base.
Context {W : Type} `{B : Backend W}.

(** Constructor, line 57. *)
Definition SharedLibraryBase_ctor (path : string) (delayLoad : bool) : SharedLibraryBase :=
  mkBase path delayLoad false nullptr.

(** The factory, lines 280-287: the platform's class is chosen when the
    header is compiled, here by the [Backend] instance in use. *)
Definition makeSharedLibrary (path : string) (delayLoad : bool) : SharedLibraryBase :=
  SharedLibraryBase_ctor path delayLoad.

(** Lines 103-106. *)
Definition isLoaded (o : SharedLibraryBase) : bool := negb (is_null (handle_ o)).

(** Lines 137-144; [extra] is a [const char*] that may be null. *)
Definition throwLastError {A} (api : string) (extra : option string) : M W A :=
  let msg := api +:+ " failed" in
  let msg := match extra with
             | Some e => msg +:+ (" " +:+ dash +:+ " ") +:+ e
             | None => msg
             end in
  throw msg.

(** Lines 74-84. *)
Definition loadNow : M W unit :=
  loaded ← member isLoaded;
  if (loaded : bool) then mret tt
  else
    nativeLoad;;
    loaded' ← member isLoaded;
    if (loaded' : bool) then mret tt
    else throwLastError "loadNow() failed" None.

(** [std::call_once(flag_, f)] run by one thread: a flag already set makes
    the call return at once; otherwise [f] runs, and the flag is set only
    when [f] returns, an exception leaving it as it was
    (C++17 [thread.once.callonce]). *)
Definition call_once (f : M W unit) : M W unit := fun m =>
  if flag_ (this m) then (Ok tt, m)
  else match f m with
       | (Ok _, m') => set_flag_ true m'
       | (Throw e, m') => (Throw e, m')
       | (Undefined, m') => (Undefined, m')
       end.

(** Lines 86-90. *)
Definition ensureLoaded : M W unit := call_once loadNow.

(** Lines 95-101. *)
Definition unload : M W unit :=
  loaded ← member isLoaded;
  if (loaded : bool) then nativeUnload;; set_handle_ nullptr
  else mret tt.

(** Lines 108-117; the [reinterpret_cast] keeps the address. *)
Definition get (nm : string) : M W pointer :=
  ensureLoaded;;
  p ← rawGetSymbol nm;
  if is_null p then throwLastError "GetProcAddress" (Some nm)
  else mret p.

(** Lines 119-123: [out] is the address of the caller's variable. *)
Definition get_out (nm : string) (out : N) : M W unit :=
  p ← get nm;
  store out p.

(** Lines 154-159. *)
Definition batchLoad_one (binding : _FuncBinding) : M W unit :=
  let p := ptr binding in
  v ← get (name binding);
  store p v.

(** Lines 125-129: the comma fold evaluates the pack from left to right. *)
Fixpoint batchLoad (bindings : list _FuncBinding) : M W unit :=
  match bindings with
  | [] => mret tt
  | b :: rest => batchLoad_one b;; batchLoad rest
  end.
End Base.

(** ** The POSIX backend *)

Module Posix.

(** The constants of [<dlfcn.h>] the backend names; the header is the
    platform's, so their values are a parameter. *)
Record dlfcn_h : Type := mk_dlfcn_h {
  RTLD_LAZY : Z;
  RTLD_NOW : Z;
  RTLD_LOCAL : Z;
  RTLD_GLOBAL : Z
}.

(** The values of glibc (also musl and the BSDs) and of macOS. *)
Definition glibc : dlfcn_h := mk_dlfcn_h 1 2 0 256.
Definition darwin : dlfcn_h := mk_dlfcn_h 1 2 4 8.

(** What POSIX asks of the constants: the two binding modes and the two
    visibilities are told apart by their bits, and the modes are not 0. *)
Definition dlfcn_ok (H : dlfcn_h) : bool :=
  (Z.land (RTLD_LAZY H) (RTLD_NOW H) =? 0)%Z &&
  (Z.land (RTLD_LOCAL H) (RTLD_NOW H) =? 0)%Z &&
  (Z.land (RTLD_LAZY H) (RTLD_GLOBAL H) =? 0)%Z &&
  (Z.land (RTLD_LOCAL H) (RTLD_GLOBAL H) =? 0)%Z &&
  negb (RTLD_LAZY H =? 0)%Z && negb (RTLD_NOW H =? 0)%Z &&
  negb (RTLD_GLOBAL H =? 0)%Z.

(** How a [dlopen] flag word is read. *)
Definition immediate_resolution (H : dlfcn_h) (flags : Z) : bool :=
  negb (Z.land flags (RTLD_NOW H) =? 0)%Z.
Definition lazy_resolution (H : dlfcn_h) (flags : Z) : bool :=
  negb (Z.land flags (RTLD_LAZY H) =? 0)%Z.
Definition local_visibility (H : dlfcn_h) (flags : Z) : bool :=
  (Z.land flags (RTLD_GLOBAL H) =? 0)%Z.

(** The calls made to the dynamic linker, each with what it returned. *)
Inductive Event : Type :=
| EvDlopen (path : string) (flags : Z) (ret : pointer)
| EvDlclose (h : pointer)
| EvDlsym (h : pointer) (sym : string) (ret : pointer)
| EvDlerror (ret : option string).

(** What the linker answers. [dlopen] gives a handle, never null, or fails
    with a message; [dlsym] gives the symbol's value, which may be null, or
    fails with a message; [dlclose] may fail with a message. *)
Inductive dlopen_result : Type :=
| Opened (h : positive)
| OpenFailed (msg : string).

Inductive dlsym_result : Type :=
| Address (p : pointer)
| SymFailed (msg : string).

(** The linker and the file system behind it: the answer to a call may
    depend on every call made before (newest first). *)
Record Linker : Type := mkLinker {
  header : dlfcn_h;
  ld_open : list Event -> string -> Z -> dlopen_result;
  ld_sym : list Event -> pointer -> string -> dlsym_result;
  ld_close : list Event -> pointer -> option string
}.

(** The linker's state: the pending [dlerror] message and the calls so
    far, newest first. *)
Record World : Type := mkWorld {
  dl_error : option string;
  trace : list Event
}.

Section Calls.
Variable L : Linker.

Definition dlopen (path : string) (flags : Z) : M World pointer :=
  platform (fun w =>
    match ld_open L (trace w) path flags with
    | Opened h =>
        (Npos h, mkWorld (dl_error w) (EvDlopen path flags (Npos h) :: trace w))
    | OpenFailed msg =>
        (nullptr, mkWorld (Some msg) (EvDlopen path flags nullptr :: trace w))
    end).

(** [dlerror()] returns the pending message, or null, and clears it. *)
Definition dlerror : M World (option string) :=
  platform (fun w => (dl_error w, mkWorld None (EvDlerror (dl_error w) :: trace w))).

Definition dlsym (h : pointer) (sym : string) : M World pointer :=
  platform (fun w =>
    match ld_sym L (trace w) h sym with
    | Address p => (p, mkWorld (dl_error w) (EvDlsym h sym p :: trace w))
    | SymFailed msg => (nullptr, mkWorld (Some msg) (EvDlsym h sym nullptr :: trace w))
    end).

Definition dlclose (h : pointer) : M World unit :=
  platform (fun w =>
    (tt, mkWorld (match ld_close L (trace w) h with
                  | Some msg => Some msg
                  | None => dl_error w
                  end)
                 (EvDlclose h :: trace w))).

(** Lines 239-250. [dlopen] is given [libPath_.c_str()]. Appending a null
    [const char*] to a [std::string] is undefined. *)
Definition posix_nativeLoad : M World unit :=
  path ← member libPath_;
  h ← dlopen (c_str path) (Z.lor (RTLD_LAZY (header L)) (RTLD_LOCAL (header L)));
  if is_null h then
    err ← dlerror;
    match err with
    | Some e => throw ("dlopen failed: " +:+ e)
    | None => undefined_behaviour
    end
  else set_handle_ h.

(** Lines 252-258. *)
Definition posix_nativeUnload : M World unit :=
  h ← member handle_;
  if is_null h then mret tt
  else dlclose h;; set_handle_ nullptr.

(** Lines 260-272. *)
Definition posix_rawGetSymbol (sym : string) : M World pointer :=
  h ← member handle_;
  if is_null h then mret nullptr
  else
    dlerror;;
    p ← dlsym h sym;
    err ← dlerror;
    match err with
    | Some _ => mret nullptr
    | None => mret p
    end.

(** [class SharedLibraryPosix final : public SharedLibraryBase], lines
    229-273. *)
#[export] Instance SharedLibraryPosix : Backend World := {|
  nativeHandle := handle_;
  nativeLoad := posix_nativeLoad;
  nativeUnload := posix_nativeUnload;
  rawGetSymbol := posix_rawGetSymbol
|}.
End Calls.

End Posix.

(** ** The Windows backend *)

Module Windows.

(** The calls made to kernel32, each with what it returned. A wide string is
    the list of its [wchar_t] code units. *)
Inductive Event : Type :=
| EvLoadLibraryW (wpath : list N) (ret : pointer)
| EvFreeLibrary (h : pointer)
| EvGetProcAddress (h : pointer) (sym : string) (ret : pointer).

(** What kernel32 answers. [MultiByteToWideChar(CP_UTF8, 0, src, cb, ..)]
    converts [cb] bytes of [src]; it is a function of its input, the empty
    list standing for a failed conversion (a required size of 0). *)
Record Kernel32 : Type := mkKernel32 {
  k_MultiByteToWideChar : string -> Z -> list N;
  k_LoadLibraryW : list Event -> list N -> option positive;
  k_GetProcAddress : list Event -> pointer -> string -> pointer
}.

Abbreviation World := (list Event).

(** [(int)s.size()] where [int] has 32 bits. *)
Definition to_int (n : nat) : Z :=
  let r := (Z.of_nat n mod 2 ^ 32)%Z in
  if (r <? 2 ^ 31)%Z then r else (r - 2 ^ 32)%Z.

Section Calls.
Variable K : Kernel32.

Definition LoadLibraryW (wpath : list N) : M World pointer :=
  platform (fun w =>
    let h := match k_LoadLibraryW K w wpath with
             | Some h => Npos h
             | None => nullptr
             end in
    (h, EvLoadLibraryW wpath h :: w)).

Definition FreeLibrary (h : pointer) : M World unit :=
  platform (fun w => (tt, EvFreeLibrary h :: w)).

Definition GetProcAddress (h : pointer) (sym : string) : M World pointer :=
  platform (fun w =>
    let p := k_GetProcAddress K w h sym in
    (p, EvGetProcAddress h sym p :: w)).

(** Lines 212-221. The first call asks for the size [n], the second fills a
    buffer of [n] code units (and writes nothing when [n] is 0). *)
Definition widenPath (s : string) : list N :=
  if String.eqb s "" then []
  else
    let n := length (k_MultiByteToWideChar K s (to_int (String.length s))) in
    let w := repeat 0%N n in
    let converted := k_MultiByteToWideChar K s (to_int (String.length s)) in
    if (n =? 0)%nat then w else converted.

(** Lines 178-191. [LoadLibraryW] is given [wPath.c_str()] and the error
    text is built from [libPath_.c_str()]. *)
Definition windows_nativeLoad : M World unit :=
  path ← member libPath_;
  let wPath := widenPath path in
  h ← LoadLibraryW (wc_str wPath);
  if is_null h then throwLastError "LoadLibraryW" (Some (c_str path))
  else set_handle_ h.

(** Lines 193-200. *)
Definition windows_nativeUnload : M World unit :=
  h ← member handle_;
  if is_null h then mret tt
  else FreeLibrary h;; set_handle_ nullptr.

(** Lines 202-209. *)
Definition windows_rawGetSymbol (sym : string) : M World pointer :=
  h ← member handle_;
  if is_null h then mret nullptr
  else GetProcAddress h sym.

(** [class SharedLibraryWindows final : public SharedLibraryBase], lines
    167-222. *)
#[export] Instance SharedLibraryWindows : Backend World := {|
  nativeHandle := handle_;
  nativeLoad := windows_nativeLoad;
  nativeUnload := windows_nativeUnload;
  rawGetSymbol := windows_rawGetSymbol
|}.
End Calls.

End Windows.

(** ** A caller: sequences of public calls *)

Inductive Op : Type :=
| OpLoadNow
| OpEnsureLoaded
| OpUnload
| OpIsLoaded
| OpNativeHandle
| OpGet (nm : string)
| OpGetOut (nm : string) (out : N)
| OpBatchLoad (bindings : list _FuncBinding).

Inductive Value : Type :=
| VVoid
| VBool (b : bool)
| VPtr (p : pointer).

Section Caller.
Context {W : Type} `{B : Backend W}.

Definition call (op : Op) : M W Value :=
  match op with
  | OpLoadNow => loadNow;; mret VVoid
  | OpEnsureLoaded => ensureLoaded;; mret VVoid
  | OpUnload => unload;; mret VVoid
  | OpIsLoaded => b ← member isLoaded; mret (VBool b)
  | OpNativeHandle => p ← member nativeHandle; mret (VPtr p)
  | OpGet nm => p ← get nm; mret (VPtr p)
  | OpGetOut nm out => get_out nm out;; mret VVoid
  | OpBatchLoad bindings => batchLoad bindings;; mret VVoid
  end.

(** The caller catches what a call throws and goes on with the next call;
    nothing is said of what follows undefined behaviour. *)
Fixpoint run (ops : list Op) (m : Machine W) : list (Result Value) * Machine W :=
  match ops with
  | [] => ([], m)
  | op :: rest =>
      match call op m with
      | (Undefined, m') => ([Undefined], m')
      | (r, m') => let '(rs, m'') := run rest m' in (r :: rs, m'')
      end
  end.
End Caller.

(** ** The defaulted move operations, lines 66-68 *)

Module Move.

(** The types of the data members. *)
Inductive member_type : Type :=
| std_string
| cxx_bool
| std_once_flag
| void_ptr.

Definition members : list (string * member_type) :=
  [("libPath_", std_string); ("delayLoad_", cxx_bool);
   ("flag_", std_once_flag); ("handle_", void_ptr)].

(** [std::once_flag] can be neither copied nor moved; the other three types
    can be moved. *)
Definition move_constructible (t : member_type) : bool :=
  match t with
  | std_once_flag => false
  | _ => true
  end.

(** A move constructor or assignment defaulted on its first declaration is
    defined as deleted when a member cannot be moved (C++17 [class.copy.ctor],
    [class.copy.assign]). *)
Definition defaulted_move_deleted : bool :=
  existsb (fun '(_, t) => negb (move_constructible t)) members.

(** Moving one member gives the destination's value and what is left in the
    source: a scalar or a raw pointer is copied, a string leaves a valid
    string [residue] behind. *)
Definition move_scalar {A} (x : A) : A * A := (x, x).
Definition move_string (residue : string -> string) (s : string) : string * string :=
  (s, residue s).

(** The memberwise move, given how the flag would be moved if that were
    possible. *)
Definition memberwise_move (residue : string -> string)
    (move_flag : bool -> option (bool * bool)) (src : SharedLibraryBase)
    : option (SharedLibraryBase * SharedLibraryBase) :=
  let '(p1, p2) := move_string residue (libPath_ src) in
  let '(d1, d2) := move_scalar (delayLoad_ src) in
  match move_flag (flag_ src) with
  | None => None
  | Some (f1, f2) =>
      let '(h1, h2) := move_scalar (handle_ src) in
      Some (mkBase p1 d1 f1 h1, mkBase p2 d2 f2 h2)
  end.

(** [std::once_flag] has no move constructor. *)
Definition move_once_flag (f : bool) : option (bool * bool) := None.

(** [SharedLibraryBase(SharedLibraryBase&&) = default]: the destination and
    the source after the move, or [None] when the constructor is deleted. *)
Definition move_construct (residue : string -> string) (src : SharedLibraryBase)
    : option (SharedLibraryBase * SharedLibraryBase) :=
  if defaulted_move_deleted then None
  else memberwise_move residue move_once_flag src.

(** [operator=(SharedLibraryBase&&) = default] on a destination [dst]: every
    member of [dst] is assigned from the source's, so the outcome is that of
    the constructor. *)
Definition move_assign (residue : string -> string) (dst src : SharedLibraryBase)
    : option (SharedLibraryBase * SharedLibraryBase) :=
  if defaulted_move_deleted then None
  else memberwise_move residue move_once_flag src.

End Move.

(** ** Fixtures: a linker with one library and two symbols *)

Module Fixture.
Import Posix.

Definition libm_path : string := "libm.so.6".

Definition linker : Linker := {|
  header := glibc;
  ld_open := fun _ path _ =>
    if String.eqb path libm_path then Opened 4096
    else OpenFailed (path +:+ ": cannot open shared object file");
  ld_sym := fun _ _ sym =>
    if String.eqb sym "cos" then Address 4200
    else if String.eqb sym "sin" then Address 4300
    else SymFailed ("undefined symbol: " +:+ sym);
  ld_close := fun _ _ => None
|}.

Definition boot : World := mkWorld None [].

(** A handle just constructed on [path], with three caller variables. *)
Definition fresh (path : string) (delayLoad : bool) : Machine World :=
  mkMachine (makeSharedLibrary path delayLoad) boot
            (<[1%N := 11%N]> (<[2%N := 22%N]> (<[3%N := 33%N]> ∅))).

(** The same handle after a successful [loadNow]. *)
Definition loaded : Machine World :=
  snd (loadNow (B := SharedLibraryPosix linker) (fresh libm_path false)).

(** The handle after a successful [ensureLoaded]: the guard has fired. *)
Definition guarded : Machine World :=
  snd (ensureLoaded (B := SharedLibraryPosix linker) (fresh libm_path true)).

(** A handle on a path the linker cannot open. *)
Definition missing : Machine World := fresh "missing.so" true.

(** A kernel32 that loads nothing and resolves every name to one address,
    and a Windows handle that is loaded with its guard fired. *)
Definition kernel32 : Windows.Kernel32 :=
  Windows.mkKernel32 (fun _ _ => []) (fun _ _ => None) (fun _ _ _ => 4200%N).

Definition win_loaded : Machine Windows.World :=
  mkMachine (mkBase "m.dll" false true 4096) [] ∅.

Definition win_fresh : Machine Windows.World :=
  mkMachine (makeSharedLibrary "m.dll" false) [] ∅.

End Fixture.

(** ** Vocabulary of the statements *)

(** [frame fd fm m] is [m] with the load-mode flag changed by [fd] and the
    caller's variables changed by [fm]. A computation is blind to such a
    change when making it before or after the computation is the same. *)
Definition frame {W} (fd : bool -> bool) (fm : gmap N pointer -> gmap N pointer)
    (m : Machine W) : Machine W :=
  let o := this m in
  mkMachine (mkBase (libPath_ o) (fd (delayLoad_ o)) (flag_ o) (handle_ o))
            (os m) (fm (mem m)).

Definition blind {W A} (fd : bool -> bool) (fm : gmap N pointer -> gmap N pointer)
    (c : M W A) : Prop :=
  forall m, c (frame fd fm m) = (fst (c m), frame fd fm (snd (c m))).

(** [m] with the caller's variables replaced by [mu]. *)
Definition set_mem {W} (mu : gmap N pointer) (m : Machine W) : Machine W :=
  mkMachine (this m) (os m) mu.

(** [part] occurs in [msg]. *)
Definition contains (msg part : string) : Prop :=
  exists pre post, msg = pre +:+ part +:+ post.

(** The message of a failed symbol lookup. *)
Definition symbol_error (nm : string) : string :=
  "GetProcAddress failed " +:+ dash +:+ " " +:+ nm.

(** Writing resolved pointers to destination slots, first pair first. *)
Definition write_all (slots : list N) (vs : list pointer) (mu : gmap N pointer) : gmap N pointer :=
  fold_left (fun acc '(p, v) => <[p := v]> acc) (combine slots vs) mu.

(** Once the guard has fired, [c] leaves it fired and makes at most [n]
    of the platform calls that [loads] counts. *)
Definition loads_at_most {W A} (loads : W -> nat) (n : nat) (c : M W A) : Prop :=
  forall m, flag_ (this m) = true ->
    flag_ (this (snd (c m))) = true /\ loads (os (snd (c m))) <= loads (os m) + n.

(** What [op] may add to the number of load calls once the guard has
    fired. *)
Definition load_budget (op : Op) : nat :=
  match op with OpLoadNow => 1 | _ => 0 end.

(** How many of the calls [ops] are [loadNow()]. *)
Fixpoint loadNow_calls (ops : list Op) : nat :=
  match ops with
  | [] => 0
  | OpLoadNow :: rest => S (loadNow_calls rest)
  | _ :: rest => loadNow_calls rest
  end.

Section GetEach.
Context {W : Type} `{B : Backend W}.

(** Batch resolution in the spec's words: individual [get] calls, one per
    name and in the order given, stopping at the first that fails. The result
    is the pointers resolved before the stop and how the last call ended. *)
Fixpoint get_each (names : list string) (m : Machine W)
    : list pointer * (Result unit * Machine W) :=
  match names with
  | [] => ([], (Ok tt, m))
  | nm :: rest =>
      match get nm m with
      | (Ok v, m') => let '(vs, end_) := get_each rest m' in (v :: vs, end_)
      | (Throw e, m') => ([], (Throw e, m'))
      | (Undefined, m') => ([], (Undefined, m'))
      end
  end.
End GetEach.

Module PosixTrace.
Import Posix.

Definition is_dlopen (e : Event) : bool :=
  match e with EvDlopen _ _ _ => true | _ => false end.
Definition is_dlsym (e : Event) : bool :=
  match e with EvDlsym _ _ _ => true | _ => false end.
Definition is_dlclose (e : Event) : bool :=
  match e with EvDlclose _ => true | _ => false end.

Fixpoint count (f : Event -> bool) (t : list Event) : nat :=
  match t with
  | [] => 0
  | e :: rest => (if f e then 1 else 0) + count f rest
  end.

(** The flag word [nativeLoad] passes to [dlopen]. *)
Definition load_flags (L : Linker) : Z :=
  Z.lor (RTLD_LAZY (header L)) (RTLD_LOCAL (header L)).

(** A lazy [get] on [m] would load the library: the guard has not fired and
    the linker opens the path. *)
Definition would_load (L : Linker) (m : Machine World) : bool :=
  negb (flag_ (this m)) &&
  match ld_open L (trace (os m)) (c_str (libPath_ (this m))) (load_flags L) with
  | Opened _ => true
  | OpenFailed _ => false
  end.

Definition dlopen_calls (w : World) : nat := count is_dlopen (trace w).
Definition dlopens (m : Machine World) : nat := dlopen_calls (os m).
Definition dlsyms (m : Machine World) : nat := count is_dlsym (trace (os m)).
Definition dlcloses (m : Machine World) : nat := count is_dlclose (trace (os m)).

End PosixTrace.

Module WindowsTrace.
Import Windows.

Definition is_LoadLibraryW (e : Event) : bool :=
  match e with EvLoadLibraryW _ _ => true | _ => false end.

Fixpoint count (f : Event -> bool) (t : list Event) : nat :=
  match t with
  | [] => 0
  | e :: rest => (if f e then 1 else 0) + count f rest
  end.

Definition LoadLibraryW_calls (w : World) : nat := count is_LoadLibraryW w.

(** A lazy [get] on [m] would load the library. *)
Definition would_load (K : Kernel32) (m : Machine World) : bool :=
  negb (flag_ (this m)) &&
  match k_LoadLibraryW K (os m) (wc_str (widenPath K (libPath_ (this m)))) with
  | Some _ => true
  | None => false
  end.

End WindowsTrace.

(** ** Destruction, invariants and the discipline of handles *)

(** The destructor, line 60. It is defaulted, and neither backend declares
    one: destroying the members (a string, a [bool], the flag and a raw
    pointer) makes no call of the platform. *)
Definition SharedLibraryBase_dtor {W} : M W unit := mret tt.

(** [c] keeps the invariant [I]. *)
Definition keeps {W A} (I : Machine W -> Prop) (c : M W A) : Prop :=
  forall m, I m -> I (snd (c m)).

(** The caller's variables the calls [ops] name as destinations. *)
Fixpoint slots_of (ops : list Op) : list N :=
  match ops with
  | [] => []
  | OpGetOut _ out :: rest => out :: slots_of rest
  | OpBatchLoad bindings :: rest => (map ptr bindings ++ slots_of rest)%list
  | _ :: rest => slots_of rest
  end.

Module PosixDiscipline.
Import Posix PosixTrace.

(** The handle the calls so far have obtained and not given back: what the
    latest [dlopen] that succeeded returned, unless it has been passed to
    [dlclose] since (whatever [dlclose] answered). *)
Fixpoint held (t : list Event) : pointer :=
  match t with
  | [] => nullptr
  | EvDlopen _ _ ret :: t' => if is_null ret then held t' else ret
  | EvDlclose _ :: _ => nullptr
  | _ :: t' => held t'
  end.

(** A history in which every [dlopen] is on the C string [path] with [flags] and made
    while nothing is held, and every [dlsym] and [dlclose] is on the handle
    held at that moment, which is not null. *)
Fixpoint disciplined (path : string) (flags : Z) (t : list Event) : bool :=
  match t with
  | [] => true
  | e :: t' =>
      disciplined path flags t' &&
      match e with
      | EvDlopen p f _ =>
          bool_decide (p = path) && bool_decide (f = flags) && is_null (held t')
      | EvDlclose h => negb (is_null h) && bool_decide (h = held t')
      | EvDlsym h _ _ => negb (is_null h) && bool_decide (h = held t')
      | EvDlerror _ => true
      end
  end.

(** The object and the history agree: [handle_] is the handle held, and the
    history is disciplined for the object's path as [dlopen] reads it. *)
Definition handle_discipline (L : Linker) (m : Machine World) : Prop :=
  handle_ (this m) = held (trace (os m)) /\
  disciplined (c_str (libPath_ (this m))) (load_flags L) (trace (os m)) = true.

(** The [dlopen] calls that gave a handle. *)
Definition is_opened (e : Event) : bool :=
  match e with EvDlopen _ _ ret => negb (is_null ret) | _ => false end.

End PosixDiscipline.

Module WindowsDiscipline.
Import Windows WindowsTrace.

Fixpoint held (t : list Event) : pointer :=
  match t with
  | [] => nullptr
  | EvLoadLibraryW _ ret :: t' => if is_null ret then held t' else ret
  | EvFreeLibrary _ :: _ => nullptr
  | _ :: t' => held t'
  end.

Fixpoint disciplined (wpath : list N) (t : list Event) : bool :=
  match t with
  | [] => true
  | e :: t' =>
      disciplined wpath t' &&
      match e with
      | EvLoadLibraryW wp _ => bool_decide (wp = wpath) && is_null (held t')
      | EvFreeLibrary h => negb (is_null h) && bool_decide (h = held t')
      | EvGetProcAddress h _ _ => negb (is_null h) && bool_decide (h = held t')
      end
  end.

Definition handle_discipline (K : Kernel32) (m : Machine World) : Prop :=
  handle_ (this m) = held (os m) /\
  disciplined (wc_str (widenPath K (libPath_ (this m)))) (os m) = true.

End WindowsDiscipline.

(** A backend that breaks the contract of [nativeLoad]: it returns without
    loading anything. *)
Definition idle_backend : Backend unit := {|
  nativeHandle := handle_;
  nativeLoad := mret tt;
  nativeUnload := mret tt;
  rawGetSymbol := fun _ => mret nullptr
|}.

(** More fixtures: a linker whose [dlclose] always fails, a loaded handle
    with a message left pending in the linker, and a handle whose guard has
    fired and whose library has been unloaded again. *)
Definition stubborn_linker : Posix.Linker :=
  Posix.mkLinker Posix.glibc (fun _ _ _ => Posix.Opened 4096)
    (fun _ _ _ => Posix.Address 4200) (fun _ _ => Some "library is busy").

Definition loaded_with_stale_error : Machine Posix.World :=
  mkMachine (mkBase "libm.so.6" false false 4096)
    (Posix.mkWorld (Some "stale message") [Posix.EvDlopen "libm.so.6" 1 4096]) ∅.


Definition idle_fresh : Machine unit :=
  mkMachine (makeSharedLibrary "lib.so" false) tt ∅.

(** ** The monad and blindness *)

Section MonadFacts.
Context {W : Type}.

Lemma bind_run {A B} (c : M W A) (k : A -> M W B) (m : Machine W) :
  (c ≫= k) m = match c m with
               | (Ok a, m') => k a m'
               | (Throw e, m') => (Throw e, m')
               | (Undefined, m') => (Undefined, m')
               end.
Proof. reflexivity. Qed.

Variables (fd : bool -> bool) (fm : gmap N pointer -> gmap N pointer).

Lemma blind_ret {A} (a : A) : blind fd fm (mret a : M W A).
Proof. intros m. reflexivity. Qed.

Lemma blind_throw {A} (e : string) : blind fd fm (throw e : M W A).
Proof. intros m. reflexivity. Qed.

Lemma blind_undefined {A} : blind fd fm (undefined_behaviour : M W A).
Proof. intros m. reflexivity. Qed.

Lemma blind_bind {A B} (c : M W A) (k : A -> M W B) :
  blind fd fm c -> (forall a, blind fd fm (k a)) -> blind fd fm (c ≫= k).
Proof.
  intros Hc Hk m. rewrite !bind_run, Hc.
  destruct (c m) as [[a|e|] m']; simpl; [apply Hk | reflexivity | reflexivity].
Qed.

Lemma blind_libPath_ : blind fd fm (member (W := W) libPath_).
Proof. intros m. reflexivity. Qed.

Lemma blind_handle_ : blind fd fm (member (W := W) handle_).
Proof. intros m. reflexivity. Qed.

Lemma blind_set_handle_ (h : pointer) : blind fd fm (set_handle_ (W := W) h).
Proof. intros m. reflexivity. Qed.

Lemma blind_platform {A} (f : W -> A * W) : blind fd fm (platform f).
Proof. intros m. unfold platform, frame. simpl. destruct (f (os m)). reflexivity. Qed.

Lemma blind_throwLastError {A} api extra :
  blind fd fm (throwLastError (W := W) (A := A) api extra).
Proof. intros m. reflexivity. Qed.
End MonadFacts.

Section BaseBlind.
Context {W : Type} `{B : Backend W}.
Variables (fd : bool -> bool) (fm : gmap N pointer -> gmap N pointer).
Hypothesis nativeHandle_blind : blind fd fm (member (W := W) nativeHandle).
Hypothesis nativeLoad_blind : blind fd fm nativeLoad.
Hypothesis nativeUnload_blind : blind fd fm nativeUnload.
Hypothesis rawGetSymbol_blind : forall nm, blind fd fm (rawGetSymbol nm).

Lemma blind_isLoaded : blind fd fm (member (W := W) isLoaded).
Proof. intros m. reflexivity. Qed.

Lemma blind_loadNow : blind fd fm loadNow.
Proof.
  unfold loadNow. apply blind_bind; [apply blind_isLoaded |].
  intros [|]; [apply blind_ret |].
  apply blind_bind; [apply nativeLoad_blind | intros _].
  apply blind_bind; [apply blind_isLoaded |].
  intros [|]; [apply blind_ret | apply blind_throwLastError].
Qed.

Lemma blind_call_once (f : M W unit) : blind fd fm f -> blind fd fm (call_once f).
Proof.
  intros Hf m. unfold call_once. simpl.
  destruct (flag_ (this m)); [reflexivity |].
  rewrite Hf. destruct (f m) as [[a|e|] m']; reflexivity.
Qed.

Lemma blind_ensureLoaded : blind fd fm ensureLoaded.
Proof. apply blind_call_once, blind_loadNow. Qed.

Lemma blind_unload : blind fd fm unload.
Proof.
  unfold unload. apply blind_bind; [apply blind_isLoaded |].
  intros [|]; [| apply blind_ret].
  apply blind_bind; [apply nativeUnload_blind | intros _; apply blind_set_handle_].
Qed.

Lemma blind_get (nm : string) : blind fd fm (get nm).
Proof.
  unfold get. apply blind_bind; [apply blind_ensureLoaded | intros _].
  apply blind_bind; [apply rawGetSymbol_blind | intros p].
  destruct (is_null p); [apply blind_throwLastError | apply blind_ret].
Qed.

(** The remaining methods write the caller's variables: they are blind to
    changes that commute with such a write. *)
Hypothesis fm_insert : forall p v mu, fm (<[p := v]> mu) = <[p := v]> (fm mu).

Lemma blind_store (p : N) (v : pointer) : blind fd fm (store (W := W) p v).
Proof. intros m. unfold store, frame. simpl. rewrite fm_insert. reflexivity. Qed.

Lemma blind_get_out (nm : string) (out : N) : blind fd fm (get_out nm out).
Proof.
  unfold get_out. apply blind_bind; [apply blind_get | intros p; apply blind_store].
Qed.

Lemma blind_batchLoad_one (b : _FuncBinding) : blind fd fm (batchLoad_one b).
Proof.
  unfold batchLoad_one. apply blind_bind; [apply blind_get | intros p; apply blind_store].
Qed.

Lemma blind_batchLoad (bs : list _FuncBinding) : blind fd fm (batchLoad bs).
Proof.
  induction bs as [|b bs IH]; simpl; [apply blind_ret |].
  apply blind_bind; [apply blind_batchLoad_one | intros _; exact IH].
Qed.

Lemma blind_call (op : Op) : blind fd fm (call op).
Proof.
  destruct op; simpl;
    (apply blind_bind; [| intros ?; apply blind_ret]);
    auto using blind_loadNow, blind_ensureLoaded, blind_unload, blind_isLoaded,
      blind_get, blind_get_out, blind_batchLoad.
Qed.

Lemma blind_run (ops : list Op) (m : Machine W) :
  run ops (frame fd fm m) = (fst (run ops m), frame fd fm (snd (run ops m))).
Proof.
  revert m. induction ops as [|op ops IH]; intros m; simpl; [reflexivity |].
  rewrite blind_call.
  destruct (call op m) as [[a|e|] m']; simpl; [| | reflexivity];
    rewrite IH; destruct (run ops m'); reflexivity.
Qed.
End BaseBlind.

Section PosixBlind.
Import Posix.
Variable L : Linker.
Variables (fd : bool -> bool) (fm : gmap N pointer -> gmap N pointer).

Lemma posix_nativeLoad_blind : blind fd fm (posix_nativeLoad L).
Proof.
  unfold posix_nativeLoad. apply blind_bind; [apply blind_libPath_ | intros path].
  apply blind_bind; [apply blind_platform | intros h].
  destruct (is_null h); [| apply blind_set_handle_].
  apply blind_bind; [apply blind_platform | intros [e|]];
    [apply blind_throw | apply blind_undefined].
Qed.

Lemma posix_nativeUnload_blind : blind fd fm (posix_nativeUnload L).
Proof.
  unfold posix_nativeUnload. apply blind_bind; [apply blind_handle_ | intros h].
  destruct (is_null h); [apply blind_ret |].
  apply blind_bind; [apply blind_platform | intros _; apply blind_set_handle_].
Qed.

Lemma posix_rawGetSymbol_blind (nm : string) : blind fd fm (posix_rawGetSymbol L nm).
Proof.
  unfold posix_rawGetSymbol. apply blind_bind; [apply blind_handle_ | intros h].
  destruct (is_null h); [apply blind_ret |].
  apply blind_bind; [apply blind_platform | intros _].
  apply blind_bind; [apply blind_platform | intros p].
  apply blind_bind; [apply blind_platform | intros [e|]]; apply blind_ret.
Qed.
End PosixBlind.

(** ** The POSIX backend, call by call *)

(** Unfolds the backends, the platform calls and the monad under them. *)
Ltac exec :=
  unfold Posix.posix_nativeLoad, Posix.posix_nativeUnload, Posix.posix_rawGetSymbol,
    Posix.dlopen, Posix.dlerror, Posix.dlsym, Posix.dlclose,
    Windows.windows_nativeLoad, Windows.windows_nativeUnload,
    Windows.windows_rawGetSymbol, Windows.LoadLibraryW, Windows.FreeLibrary,
    Windows.GetProcAddress, throwLastError, platform, member,
    set_handle_, set_flag_, store, throw, undefined_behaviour,
    mbind, mret, M_mbind, M_mret, M_bind, M_ret;
  simpl.

Section PosixRuns.
Import Posix PosixTrace.
Variable L : Linker.
Local Abbreviation P := (SharedLibraryPosix L).

Lemma nativeLoad_run (m : Machine World) :
  posix_nativeLoad L m =
  let w := os m in
  let o := this m in
  match ld_open L (trace w) (c_str (libPath_ o)) (load_flags L) with
  | Opened h =>
      (Ok tt, mkMachine (mkBase (libPath_ o) (delayLoad_ o) (flag_ o) (Npos h))
                (mkWorld (dl_error w)
                   (EvDlopen (c_str (libPath_ o)) (load_flags L) (Npos h) :: trace w))
                (mem m))
  | OpenFailed e =>
      (Throw ("dlopen failed: " +:+ e),
       mkMachine o
         (mkWorld None
            (EvDlerror (Some e)
               :: EvDlopen (c_str (libPath_ o)) (load_flags L) nullptr :: trace w))
         (mem m))
  end.
Proof.
  unfold load_flags. exec.
  destruct (ld_open L _ _ _); reflexivity.
Qed.

Lemma nativeUnload_run (m : Machine World) :
  posix_nativeUnload L m =
  let w := os m in
  let o := this m in
  if is_null (handle_ o) then (Ok tt, m)
  else
    (Ok tt, mkMachine (mkBase (libPath_ o) (delayLoad_ o) (flag_ o) nullptr)
              (mkWorld (match ld_close L (trace w) (handle_ o) with
                        | Some msg => Some msg
                        | None => dl_error w
                        end)
                       (EvDlclose (handle_ o) :: trace w))
              (mem m)).
Proof.
  exec. destruct (is_null (handle_ (this m))); reflexivity.
Qed.

Lemma rawGetSymbol_run (nm : string) (m : Machine World) :
  posix_rawGetSymbol L nm m =
  let w := os m in
  let h := handle_ (this m) in
  if is_null h then (Ok nullptr, m)
  else
    let t := EvDlerror (dl_error w) :: trace w in
    match ld_sym L t h nm with
    | Address p =>
        (Ok p, mkMachine (this m)
                 (mkWorld None (EvDlerror None :: EvDlsym h nm p :: t)) (mem m))
    | SymFailed e =>
        (Ok nullptr,
         mkMachine (this m)
           (mkWorld None (EvDlerror (Some e) :: EvDlsym h nm nullptr :: t)) (mem m))
    end.
Proof.
  exec. destruct (is_null (handle_ (this m))); [reflexivity |].
  destruct (ld_sym L _ _ _); reflexivity.
Qed.

Lemma loadNow_run (m : Machine World) :
  loadNow (B := P) m =
  if isLoaded (this m) then (Ok tt, m) else posix_nativeLoad L m.
Proof.
  unfold loadNow. rewrite bind_run. unfold member at 1. simpl.
  destruct (isLoaded (this m)); [reflexivity |].
  rewrite bind_run. change (nativeLoad (Backend := P)) with (posix_nativeLoad L).
  rewrite nativeLoad_run. simpl.
  destruct (ld_open L _ _ _); reflexivity.
Qed.

Lemma ensureLoaded_fired (m : Machine World) :
  flag_ (this m) = true -> ensureLoaded (B := P) m = (Ok tt, m).
Proof. intros Hf. unfold ensureLoaded, call_once. rewrite Hf. reflexivity. Qed.

Lemma unload_run (m : Machine World) :
  unload (B := P) m =
  let w := os m in
  let o := this m in
  if isLoaded o then
    (Ok tt, mkMachine (mkBase (libPath_ o) (delayLoad_ o) (flag_ o) nullptr)
              (mkWorld (match ld_close L (trace w) (handle_ o) with
                        | Some msg => Some msg
                        | None => dl_error w
                        end)
                       (EvDlclose (handle_ o) :: trace w))
              (mem m))
  else (Ok tt, m).
Proof.
  unfold unload. rewrite bind_run. unfold member at 1. simpl.
  unfold isLoaded. destruct (is_null (handle_ (this m))) eqn:Hn; simpl; [reflexivity |].
  rewrite bind_run. change (nativeUnload (Backend := P)) with (posix_nativeUnload L).
  rewrite nativeUnload_run. simpl. rewrite Hn. reflexivity.
Qed.

Lemma get_run (nm : string) (m : Machine World) :
  get (B := P) nm m =
  match ensureLoaded (B := P) m with
  | (Ok _, m1) =>
      match posix_rawGetSymbol L nm m1 with
      | (Ok p, m2) => if is_null p then (Throw (symbol_error nm), m2) else (Ok p, m2)
      | (Throw e, m2) => (Throw e, m2)
      | (Undefined, m2) => (Undefined, m2)
      end
  | (Throw e, m1) => (Throw e, m1)
  | (Undefined, m1) => (Undefined, m1)
  end.
Proof.
  unfold get. rewrite bind_run.
  destruct (ensureLoaded m) as [[[]|e|] m1]; try reflexivity.
  rewrite bind_run. change (rawGetSymbol (Backend := P) nm) with (posix_rawGetSymbol L nm).
  destruct (posix_rawGetSymbol L nm m1) as [[p|e|] m2]; try reflexivity.
  destruct (is_null p); reflexivity.
Qed.
End PosixRuns.

(** ** Loading and unloading *)

Section PosixClaims.
Import Posix PosixTrace.
Variable L : Linker.
Local Abbreviation P := (SharedLibraryPosix L).

Lemma ensureLoaded_loaded (m : Machine World) :
  isLoaded (this m) = true ->
  ensureLoaded (B := P) m =
  (Ok tt, mkMachine (mkBase (libPath_ (this m)) (delayLoad_ (this m)) true (handle_ (this m)))
            (os m) (mem m)).
Proof.
  intros Hl. unfold ensureLoaded, call_once.
  destruct m as [[path d f h] w mu]. simpl in *. destruct f; [reflexivity |].
  rewrite loadNow_run. simpl. rewrite Hl. reflexivity.
Qed.

Lemma append_empty_r (s : string) : s +:+ "" = s.
Proof.
  induction s as [|a s IH]; [reflexivity |].
  change (String a s +:+ "") with (String a (s +:+ "")). rewrite IH. reflexivity.
Qed.

Lemma symbol_error_names (nm : string) :
  contains (symbol_error nm) "GetProcAddress" /\ contains (symbol_error nm) nm.
Proof.
  split.
  - exists "", (" failed " +:+ dash +:+ " " +:+ nm). reflexivity.
  - exists ("GetProcAddress failed " +:+ dash +:+ " "), "".
    rewrite append_empty_r. reflexivity.
Qed.
End PosixClaims.

(** C4. [loadNow()] on the POSIX backend: on a loaded handle the call changes
    nothing. Otherwise it makes one [dlopen] call, on the stored path as a C
    string, and what the linker answers decides the outcome: when the linker
    gives a handle the call returns and the object holds exactly that handle
    (so it is loaded, native handle not null) with nothing else of it changed;
    when the linker fails the call throws the linker's message after
    "dlopen failed: " and leaves the object as it was, not loaded. So on a
    path the linker cannot open [loadNow()] fails, and a handle the object
    holds is one the linker gave. It never has undefined behaviour. *)
Theorem loadNow_atomic (L : Posix.Linker) (m : Machine Posix.World) :
  if isLoaded (this m)
  then loadNow (B := Posix.SharedLibraryPosix L) m = (Ok tt, m)
  else
    match Posix.ld_open L (Posix.trace (os m)) (c_str (libPath_ (this m)))
            (PosixTrace.load_flags L) with
    | Posix.Opened h =>
        loadNow (B := Posix.SharedLibraryPosix L) m
        = (Ok tt,
           mkMachine
             (mkBase (libPath_ (this m)) (delayLoad_ (this m)) (flag_ (this m)) (Npos h))
             (Posix.mkWorld (Posix.dl_error (os m))
                (Posix.EvDlopen (c_str (libPath_ (this m))) (PosixTrace.load_flags L)
                   (Npos h) :: Posix.trace (os m)))
             (mem m))
    | Posix.OpenFailed e =>
        loadNow (B := Posix.SharedLibraryPosix L) m
        = (Throw ("dlopen failed: " +:+ e),
           mkMachine (this m)
             (Posix.mkWorld None
                (Posix.EvDlerror (Some e)
                   :: Posix.EvDlopen (c_str (libPath_ (this m))) (PosixTrace.load_flags L)
                        nullptr :: Posix.trace (os m)))
             (mem m))
    end /\
    match loadNow (B := Posix.SharedLibraryPosix L) m with
    | (Ok _, m') =>
        isLoaded (this m') = true /\
        @nativeHandle _ (Posix.SharedLibraryPosix L) (this m') <> nullptr /\
        exists h, Posix.ld_open L (Posix.trace (os m)) (c_str (libPath_ (this m)))
                    (PosixTrace.load_flags L) = Posix.Opened h /\
                  handle_ (this m') = Npos h
    | (Throw what, m') =>
        isLoaded (this m') = false /\ this m' = this m /\ mem m' = mem m /\
        exists e, what = "dlopen failed: " +:+ e /\
          Posix.ld_open L (Posix.trace (os m)) (c_str (libPath_ (this m)))
            (PosixTrace.load_flags L) = Posix.OpenFailed e
    | (Undefined, _) => False
    end.
Proof.
  rewrite loadNow_run. destruct (isLoaded (this m)) eqn:Hl; [reflexivity |].
  rewrite nativeLoad_run. simpl.
  destruct (Posix.ld_open L _ _ _) as [h|e]; simpl.
  - split; [reflexivity |].
    split; [reflexivity | split; [discriminate |]].
    exists h. split; reflexivity.
  - split; [reflexivity |].
    repeat split; eauto.
Qed.

(** C8. [unload()] on the POSIX backend returns normally and leaves the
    native handle null; on a loaded handle it makes exactly one [dlclose]
    call, on the handle it held, and on a handle that is not loaded it changes
    nothing. A second [unload()] changes nothing and makes no call, so
    unloading twice is unloading once. *)
Theorem unload_idempotent (L : Posix.Linker) (m : Machine Posix.World) :
  let P := Posix.SharedLibraryPosix L in
  let m1 := snd (unload (B := P) m) in
  fst (unload (B := P) m) = Ok tt /\
  isLoaded (this m1) = false /\
  @nativeHandle _ P (this m1) = nullptr /\
  (if isLoaded (this m)
   then Posix.trace (os m1) = Posix.EvDlclose (handle_ (this m)) :: Posix.trace (os m)
   else m1 = m) /\
  PosixTrace.dlcloses m1
  = PosixTrace.dlcloses m + (if isLoaded (this m) then 1 else 0) /\
  unload (B := P) m1 = (Ok tt, m1) /\
  (unload (B := P);; unload (B := P)) m = unload (B := P) m.
Proof.
  intros P m1. subst m1 P.
  assert (Hrun : unload (B := Posix.SharedLibraryPosix L) m = (Ok tt, snd (unload (B := Posix.SharedLibraryPosix L) m))).
  { rewrite unload_run. simpl. destruct (isLoaded (this m)); reflexivity. }
  assert (Hnot : isLoaded (this (snd (unload (B := Posix.SharedLibraryPosix L) m))) = false).
  { rewrite unload_run. simpl.
    destruct (isLoaded (this m)) eqn:Hl; [reflexivity | exact Hl]. }
  assert (Hagain : unload (B := Posix.SharedLibraryPosix L) (snd (unload (B := Posix.SharedLibraryPosix L) m))
                   = (Ok tt, snd (unload (B := Posix.SharedLibraryPosix L) m))).
  { rewrite (unload_run L (snd _)). simpl. rewrite Hnot. reflexivity. }
  repeat split.
  - rewrite Hrun. reflexivity.
  - exact Hnot.
  - simpl. unfold isLoaded in Hnot. apply negb_false_iff in Hnot.
    apply N.eqb_eq in Hnot. exact Hnot.
  - rewrite unload_run. simpl. destruct (isLoaded (this m)); reflexivity.
  - rewrite unload_run. simpl.
    destruct (isLoaded (this m)); unfold PosixTrace.dlcloses; simpl; lia.
  - exact Hagain.
  - rewrite bind_run, Hrun. exact Hagain.
Qed.

(** ** Symbol lookup *)

(** C6. [get<Signature>(name)] on a loaded POSIX library asks the linker for
    [name] once. When the linker gives an address that is not null, [get]
    returns that address; when it gives no address (an error, or a null
    value) [get] throws, and the message holds both the operation's name
    "GetProcAddress" and the requested symbol name. The library stays
    loaded. *)
Theorem get_loaded (L : Posix.Linker) (m : Machine Posix.World) (nm : string) :
  isLoaded (this m) = true ->
  let r := fst (get (B := Posix.SharedLibraryPosix L) nm m) in
  match Posix.ld_sym L (Posix.EvDlerror (Posix.dl_error (os m)) :: Posix.trace (os m))
          (handle_ (this m)) nm with
  | Posix.Address p => if is_null p then r = Throw (symbol_error nm) else r = Ok p
  | Posix.SymFailed _ => r = Throw (symbol_error nm)
  end /\
  contains (symbol_error nm) "GetProcAddress" /\
  contains (symbol_error nm) nm /\
  isLoaded (this (snd (get (B := Posix.SharedLibraryPosix L) nm m))) = true.
Proof.
  intros Hl r. subst r.
  rewrite get_run, (ensureLoaded_loaded L m Hl), rawGetSymbol_run. simpl.
  assert (Hn : is_null (handle_ (this m)) = false).
  { unfold isLoaded in Hl. apply negb_true_iff in Hl. exact Hl. }
  rewrite Hn.
  destruct (symbol_error_names nm) as [Hop Hnm].
  destruct (Posix.ld_sym L _ _ _) as [p|e]; simpl.
  - destruct (is_null p) eqn:Hp; simpl; repeat split; assumption.
  - repeat split; assumption.
Qed.

Lemma get_loaded_witness :
  isLoaded (this Fixture.loaded) = true /\
  fst (get (B := Posix.SharedLibraryPosix Fixture.linker) "cos" Fixture.loaded)
  = Ok 4200%N.
Proof.
  split; [reflexivity |].
  exact (proj1 (get_loaded Fixture.linker Fixture.loaded "cos" eq_refl)).
Defined.

(** C7. A lookup on a POSIX handle that is not loaded. [rawGetSymbol] returns
    null and leaves the machine, the linker included, as it was: no call of
    the linker is made. [get] never has undefined behaviour; when its lazy
    load brings the library in, the handle is loaded afterwards, and
    otherwise (the guard has fired already, or the linker cannot open the
    path) [get] throws, either the lookup's error or the load's, with the
    handle still not loaded and no [dlsym] call made. *)
Theorem lookup_on_unloaded (L : Posix.Linker) (m : Machine Posix.World) (nm : string) :
  isLoaded (this m) = false ->
  rawGetSymbol (Backend := Posix.SharedLibraryPosix L) nm m = (Ok nullptr, m) /\
  let '(r, m') := get (B := Posix.SharedLibraryPosix L) nm m in
  r <> Undefined /\
  if PosixTrace.would_load L m then isLoaded (this m') = true
  else
    (r = Throw (symbol_error nm) \/ exists e, r = Throw ("dlopen failed: " +:+ e)) /\
    isLoaded (this m') = false /\
    PosixTrace.dlsyms m' = PosixTrace.dlsyms m.
Proof.
  intros Hl.
  assert (Hn : is_null (handle_ (this m)) = true).
  { unfold isLoaded in Hl. apply negb_false_iff in Hl. exact Hl. }
  split.
  { change (Posix.posix_rawGetSymbol L nm m = (Ok nullptr, m)).
    rewrite rawGetSymbol_run. simpl. rewrite Hn. reflexivity. }
  rewrite get_run. unfold PosixTrace.would_load, ensureLoaded, call_once.
  destruct (flag_ (this m)) eqn:Hf; simpl.
  - rewrite rawGetSymbol_run. simpl. rewrite Hn. simpl.
    repeat split; [discriminate | left; reflexivity | exact Hl].
  - rewrite loadNow_run, Hl, nativeLoad_run. simpl.
    destruct (Posix.ld_open L _ _ _) as [h|e]; simpl.
    + rewrite rawGetSymbol_run. simpl.
      destruct (Posix.ld_sym L _ _ _) as [p|e]; simpl.
      * destruct (is_null p); simpl; split; [discriminate | reflexivity | discriminate | reflexivity].
      * split; [discriminate | reflexivity].
    + repeat split; [discriminate | right; eexists; reflexivity | exact Hl].
Qed.

Lemma lookup_on_unloaded_witness :
  isLoaded (this (Fixture.fresh "missing.so" false)) = false /\
  rawGetSymbol (Backend := Posix.SharedLibraryPosix Fixture.linker) "cos"
    (Fixture.fresh "missing.so" false)
  = (Ok nullptr, Fixture.fresh "missing.so" false).
Proof.
  split; [reflexivity |].
  exact (proj1 (lookup_on_unloaded Fixture.linker (Fixture.fresh "missing.so" false)
                  "cos" eq_refl)).
Defined.

(** ** The one-time guard *)

Section Guard.
Context {W : Type} `{B : Backend W}.
Variable loads : W -> nat.

Lemma loads_ret {A} (a : A) : loads_at_most loads 0 (mret a : M W A).
Proof. intros m Hf. simpl. split; [exact Hf | lia]. Qed.

Lemma loads_member {A} (f : SharedLibraryBase -> A) :
  loads_at_most loads 0 (member (W := W) f).
Proof. intros m Hf. simpl. split; [exact Hf | lia]. Qed.

Lemma loads_throwLastError {A} (api : string) (extra : option string) :
  loads_at_most loads 0 (throwLastError (W := W) (A := A) api extra).
Proof. intros m Hf. simpl. split; [exact Hf | lia]. Qed.

Lemma loads_store (p : N) (v : pointer) : loads_at_most loads 0 (store (W := W) p v).
Proof. intros m Hf. simpl. split; [exact Hf | lia]. Qed.

Lemma loads_set_handle_ (h : pointer) : loads_at_most loads 0 (set_handle_ (W := W) h).
Proof. intros m Hf. simpl. split; [exact Hf | lia]. Qed.

Lemma loads_weaken {A} (n n' : nat) (c : M W A) :
  n <= n' -> loads_at_most loads n c -> loads_at_most loads n' c.
Proof. intros Hle Hc m Hf. destruct (Hc m Hf) as [H1 H2]. split; [exact H1 | lia]. Qed.

Lemma loads_bind {A C} (n1 n2 : nat) (c : M W A) (k : A -> M W C) :
  loads_at_most loads n1 c -> (forall a, loads_at_most loads n2 (k a)) ->
  loads_at_most loads (n1 + n2) (c ≫= k).
Proof.
  intros Hc Hk m Hf. rewrite bind_run. destruct (Hc m Hf) as [H1 H2].
  destruct (c m) as [[a|e|] m1]; simpl in *; [| split; [exact H1 | lia] ..].
  destruct (Hk a m1 H1) as [H3 H4]. split; [exact H3 | lia].
Qed.

Lemma loads_then_ret {A C} (n : nat) (c : M W A) (f : A -> C) :
  loads_at_most loads n c -> loads_at_most loads n (c ≫= fun a => mret (f a)).
Proof.
  intros Hc. eapply loads_weaken; [| apply (loads_bind n 0); [exact Hc |]].
  - lia.
  - intros a. apply loads_ret.
Qed.

(** The guard itself: once fired, [call_once] runs nothing. *)
Lemma call_once_fired (f : M W unit) (m : Machine W) :
  flag_ (this m) = true -> call_once f m = (Ok tt, m).
Proof. intros Hf. unfold call_once. rewrite Hf. reflexivity. Qed.

Lemma loads_ensureLoaded : loads_at_most loads 0 ensureLoaded.
Proof.
  intros m Hf. unfold ensureLoaded. rewrite (call_once_fired _ m Hf). simpl.
  split; [exact Hf | lia].
Qed.

Hypothesis loads_nativeLoad : loads_at_most loads 1 nativeLoad.
Hypothesis loads_nativeUnload : loads_at_most loads 0 nativeUnload.
Hypothesis loads_rawGetSymbol : forall nm, loads_at_most loads 0 (rawGetSymbol nm).

Lemma loads_loadNow : loads_at_most loads 1 loadNow.
Proof.
  unfold loadNow. apply (loads_bind 0 1); [apply loads_member | intros [|]].
  - eapply loads_weaken; [| apply loads_ret]. lia.
  - apply (loads_bind 1 0); [apply loads_nativeLoad | intros _].
    apply (loads_bind 0 0); [apply loads_member | intros [|]];
      [apply loads_ret | apply loads_throwLastError].
Qed.

Lemma loads_unload : loads_at_most loads 0 unload.
Proof.
  unfold unload. apply (loads_bind 0 0); [apply loads_member | intros [|]].
  - apply (loads_bind 0 0); [apply loads_nativeUnload | intros _; apply loads_set_handle_].
  - apply loads_ret.
Qed.

Lemma loads_get (nm : string) : loads_at_most loads 0 (get nm).
Proof.
  unfold get. apply (loads_bind 0 0); [apply loads_ensureLoaded | intros _].
  apply (loads_bind 0 0); [apply loads_rawGetSymbol | intros p].
  destruct (is_null p); [apply loads_throwLastError | apply loads_ret].
Qed.

Lemma loads_batchLoad (bs : list _FuncBinding) : loads_at_most loads 0 (batchLoad bs).
Proof.
  induction bs as [|b bs IH]; simpl; [apply loads_ret |].
  apply (loads_bind 0 0); [| intros _; exact IH].
  unfold batchLoad_one. apply (loads_bind 0 0); [apply loads_get | intros v; apply loads_store].
Qed.

Lemma loads_call (op : Op) : loads_at_most loads (load_budget op) (call op).
Proof.
  destruct op; simpl; apply loads_then_ret.
  - apply loads_loadNow.
  - apply loads_ensureLoaded.
  - apply loads_unload.
  - apply loads_member.
  - apply loads_member.
  - apply loads_get.
  - unfold get_out. apply (loads_bind 0 0); [apply loads_get | intros v; apply loads_store].
  - apply loads_batchLoad.
Qed.

Lemma loads_run (ops : list Op) (m : Machine W) :
  flag_ (this m) = true ->
  flag_ (this (snd (run ops m))) = true /\
  loads (os (snd (run ops m))) <= loads (os m) + loadNow_calls ops.
Proof.
  revert m. induction ops as [|op ops IH]; intros m Hf; simpl; [split; [exact Hf | lia] |].
  destruct (loads_call op m Hf) as [H1 H2].
  assert (Hb : loadNow_calls (op :: ops) = load_budget op + loadNow_calls ops)
    by (destruct op; reflexivity).
  simpl in Hb. rewrite Hb.
  destruct (call op m) as [[a|e|] m1]; simpl in *; [| | split; [exact H1 | lia]];
    destruct (IH m1 H1) as [H3 H4]; destruct (run ops m1); simpl in *; (split; [exact H3 | lia]).
Qed.
End Guard.

Section PosixGuard.
Import Posix PosixTrace.
Variable L : Linker.
Local Abbreviation P := (SharedLibraryPosix L).

Lemma posix_loads_nativeLoad : loads_at_most dlopen_calls 1 (posix_nativeLoad L).
Proof.
  intros m Hf. rewrite nativeLoad_run. simpl.
  destruct (ld_open L _ _ _); simpl; (split; [exact Hf | unfold dlopen_calls; simpl; lia]).
Qed.

Lemma posix_loads_nativeUnload : loads_at_most dlopen_calls 0 (posix_nativeUnload L).
Proof.
  intros m Hf. rewrite nativeUnload_run. simpl.
  destruct (is_null _); simpl; (split; [exact Hf | unfold dlopen_calls; simpl; lia]).
Qed.

Lemma posix_loads_rawGetSymbol (nm : string) :
  loads_at_most dlopen_calls 0 (posix_rawGetSymbol L nm).
Proof.
  intros m Hf. rewrite rawGetSymbol_run. simpl.
  destruct (is_null _); simpl; [split; [exact Hf | lia] |].
  destruct (ld_sym L _ _ _); simpl; (split; [exact Hf | unfold dlopen_calls; simpl; lia]).
Qed.

Lemma posix_loads_run (ops : list Op) (m : Machine World) :
  flag_ (this m) = true ->
  flag_ (this (snd (run (B := P) ops m))) = true /\
  dlopens (snd (run (B := P) ops m)) <= dlopens m + loadNow_calls ops.
Proof.
  apply (loads_run (B := P) dlopen_calls).
  - apply posix_loads_nativeLoad.
  - apply posix_loads_nativeUnload.
  - apply posix_loads_rawGetSymbol.
Qed.

Lemma guard_fires_iff_returns (m : Machine World) :
  flag_ (this (snd (ensureLoaded (B := P) m))) = true <->
  fst (ensureLoaded (B := P) m) = Ok tt.
Proof.
  unfold ensureLoaded, call_once. destruct (flag_ (this m)) eqn:Hf; simpl.
  - rewrite Hf. split; reflexivity.
  - rewrite loadNow_run. destruct (isLoaded (this m)); simpl; [split; reflexivity |].
    rewrite nativeLoad_run. simpl.
    destruct (ld_open L _ _ _); simpl; [split; reflexivity |].
    rewrite Hf. split; discriminate.
Qed.
End PosixGuard.

(** C2, as the code has it. The guard fires exactly when an [ensureLoaded()]
    call returns normally; a load that fails throws out of [call_once] and
    leaves the guard as it was. Once the guard has fired, whatever public
    calls follow, it stays fired, every further [ensureLoaded()] returns at
    once and changes nothing (so it makes no call of the linker), the number
    of [dlopen] calls grows by at most the number of explicit [loadNow()]
    calls, and a [loadNow()] calls [dlopen] once when the handle is not
    loaded and not at all when it is. *)
Theorem ensureLoaded_once_fired (L : Posix.Linker) (m : Machine Posix.World)
    (ops : list Op) :
  flag_ (this m) = true ->
  let P := Posix.SharedLibraryPosix L in
  let m' := snd (run (B := P) ops m) in
  flag_ (this m') = true /\
  ensureLoaded (B := P) m' = (Ok tt, m') /\
  PosixTrace.dlopens m' <= PosixTrace.dlopens m + loadNow_calls ops /\
  PosixTrace.dlopens (snd (loadNow (B := P) m'))
  = PosixTrace.dlopens m' + (if isLoaded (this m') then 0 else 1) /\
  forall m0 : Machine Posix.World,
    flag_ (this (snd (ensureLoaded (B := P) m0))) = true <->
    fst (ensureLoaded (B := P) m0) = Ok tt.
Proof.
  intros Hf P m'. subst m' P.
  destruct (posix_loads_run L ops m Hf) as [H1 H2].
  repeat split.
  - exact H1.
  - apply ensureLoaded_fired, H1.
  - exact H2.
  - rewrite loadNow_run.
    destruct (isLoaded (this (snd (run ops m)))); [simpl; lia |].
    rewrite nativeLoad_run. simpl.
    destruct (Posix.ld_open L _ _ _);
      unfold PosixTrace.dlopens, PosixTrace.dlopen_calls; simpl; lia.
  - apply guard_fires_iff_returns.
  - apply guard_fires_iff_returns.
Qed.

Lemma ensureLoaded_once_fired_witness :
  flag_ (this Fixture.guarded) = true /\
  ensureLoaded (B := Posix.SharedLibraryPosix Fixture.linker)
    (snd (run (B := Posix.SharedLibraryPosix Fixture.linker)
            [OpUnload; OpEnsureLoaded; OpGet "cos"] Fixture.guarded))
  = (Ok tt, snd (run (B := Posix.SharedLibraryPosix Fixture.linker)
                   [OpUnload; OpEnsureLoaded; OpGet "cos"] Fixture.guarded)).
Proof.
  split; [reflexivity |].
  exact (proj1 (proj2 (ensureLoaded_once_fired Fixture.linker Fixture.guarded
                         [OpUnload; OpEnsureLoaded; OpGet "cos"] eq_refl))).
Defined.

(** C2 as stated fails: a first [ensureLoaded()] whose load fails does not
    use the guard up, and the second call asks the linker again. *)
Lemma ensureLoaded_retries_failed_load :
  fst (ensureLoaded (B := Posix.SharedLibraryPosix Fixture.linker) Fixture.missing)
  = Throw "dlopen failed: missing.so: cannot open shared object file" /\
  flag_ (this (snd (ensureLoaded (B := Posix.SharedLibraryPosix Fixture.linker)
                      Fixture.missing))) = false /\
  PosixTrace.dlopens
    (snd (ensureLoaded (B := Posix.SharedLibraryPosix Fixture.linker) Fixture.missing))
  = 1 /\
  PosixTrace.dlopens
    (snd (ensureLoaded (B := Posix.SharedLibraryPosix Fixture.linker)
            (snd (ensureLoaded (B := Posix.SharedLibraryPosix Fixture.linker)
                    Fixture.missing))))
  = 2.
Proof. repeat split. Qed.

(** ** The flags of the load call *)

Lemma land_lor_zero (a b c : Z) :
  Z.land a c = 0%Z -> Z.land b c = 0%Z -> Z.land (Z.lor a b) c = 0%Z.
Proof. intros Ha Hb. rewrite Z.land_lor_distr_l, Ha, Hb. reflexivity. Qed.

Lemma land_lor_self (a b : Z) : a <> 0%Z -> Z.land (Z.lor a b) a <> 0%Z.
Proof.
  intros Ha H. rewrite Z.land_lor_distr_l, Z.land_diag in H.
  apply Z.lor_eq_0_iff in H. destruct H as [H _]. contradiction.
Qed.

(** C3, as the code has it. [nativeLoad] of the POSIX backend makes one
    [dlopen] call, on the stored path as a C string and with the flag word
    [RTLD_LAZY | RTLD_LOCAL]; under any [<dlfcn.h>] that keeps the modes and
    visibilities apart, that word asks for lazy resolution, does not ask for
    immediate resolution, and asks for local visibility. *)
Theorem nativeLoad_flags (L : Posix.Linker) (m : Machine Posix.World) :
  Posix.dlfcn_ok (Posix.header L) = true ->
  (exists (ret : pointer) (later : list Posix.Event),
     Posix.trace (os (snd (Posix.posix_nativeLoad L m)))
     = (later ++ Posix.EvDlopen (c_str (libPath_ (this m))) (PosixTrace.load_flags L) ret
                  :: Posix.trace (os m))%list /\
     PosixTrace.count PosixTrace.is_dlopen later = 0) /\
  PosixTrace.load_flags L
  = Z.lor (Posix.RTLD_LAZY (Posix.header L)) (Posix.RTLD_LOCAL (Posix.header L)) /\
  Posix.lazy_resolution (Posix.header L) (PosixTrace.load_flags L) = true /\
  Posix.immediate_resolution (Posix.header L) (PosixTrace.load_flags L) = false /\
  Posix.local_visibility (Posix.header L) (PosixTrace.load_flags L) = true.
Proof.
  intros Hok. unfold Posix.dlfcn_ok in Hok.
  repeat (apply andb_prop in Hok; destruct Hok as [Hok ?]).
  repeat match goal with
         | H : (_ =? _)%Z = true |- _ => apply Z.eqb_eq in H
         | H : negb (_ =? _)%Z = true |- _ => apply negb_true_iff, Z.eqb_neq in H
         end.
  split; [| repeat split].
  - rewrite nativeLoad_run. simpl.
    destruct (Posix.ld_open L _ _ _) as [h|e]; simpl.
    + exists (Npos h), []. split; reflexivity.
    + exists nullptr, [Posix.EvDlerror (Some e)]. split; reflexivity.
  - unfold Posix.lazy_resolution, PosixTrace.load_flags.
    apply negb_true_iff, Z.eqb_neq, land_lor_self. assumption.
  - unfold Posix.immediate_resolution, PosixTrace.load_flags.
    apply negb_false_iff, Z.eqb_eq, land_lor_zero; assumption.
  - unfold Posix.local_visibility, PosixTrace.load_flags.
    apply Z.eqb_eq, land_lor_zero; assumption.
Qed.

Lemma nativeLoad_flags_witness :
  Posix.dlfcn_ok (Posix.header Fixture.linker) = true /\
  Posix.immediate_resolution (Posix.header Fixture.linker)
    (PosixTrace.load_flags Fixture.linker) = false.
Proof.
  split; [reflexivity |].
  exact (proj1 (proj2 (proj2 (proj2
    (nativeLoad_flags Fixture.linker (Fixture.fresh Fixture.libm_path false) eq_refl))))).
Defined.

(** C3 as stated fails: with glibc's constants the one [dlopen] call of
    [nativeLoad] carries the flag word 1, [RTLD_LAZY], in which the
    [RTLD_NOW] bit is clear; with macOS's constants the word is 5, and the
    bit is clear as well. *)
Lemma nativeLoad_not_immediate :
  Posix.trace (os (snd (Posix.posix_nativeLoad Fixture.linker
                          (Fixture.fresh Fixture.libm_path false))))
  = [Posix.EvDlopen "libm.so.6" 1 4096] /\
  Posix.immediate_resolution Posix.glibc 1 = false /\
  Posix.lazy_resolution Posix.glibc 1 = true /\
  Z.lor (Posix.RTLD_LAZY Posix.darwin) (Posix.RTLD_LOCAL Posix.darwin) = 5%Z /\
  Posix.immediate_resolution Posix.darwin 5 = false.
Proof. repeat split. Qed.

(** ** The load-mode flag *)

Section WindowsBlind.
Import Windows.
Variable K : Kernel32.
Variables (fd : bool -> bool) (fm : gmap N pointer -> gmap N pointer).

Lemma windows_nativeLoad_blind : blind fd fm (windows_nativeLoad K).
Proof.
  unfold windows_nativeLoad. apply blind_bind; [apply blind_libPath_ | intros path].
  apply blind_bind; [apply blind_platform | intros h].
  destruct (is_null h); [apply blind_throwLastError | apply blind_set_handle_].
Qed.

Lemma windows_nativeUnload_blind : blind fd fm windows_nativeUnload.
Proof.
  unfold windows_nativeUnload. apply blind_bind; [apply blind_handle_ | intros h].
  destruct (is_null h); [apply blind_ret |].
  apply blind_bind; [apply blind_platform | intros _; apply blind_set_handle_].
Qed.

Lemma windows_rawGetSymbol_blind (nm : string) : blind fd fm (windows_rawGetSymbol K nm).
Proof.
  unfold windows_rawGetSymbol. apply blind_bind; [apply blind_handle_ | intros h].
  destruct (is_null h); [apply blind_ret | apply blind_platform].
Qed.
End WindowsBlind.

Lemma posix_run_blind (L : Posix.Linker) (fd : bool -> bool) (ops : list Op)
    (m : Machine Posix.World) :
  run (B := Posix.SharedLibraryPosix L) ops (frame fd id m)
  = (fst (run (B := Posix.SharedLibraryPosix L) ops m),
     frame fd id (snd (run (B := Posix.SharedLibraryPosix L) ops m))).
Proof.
  apply (blind_run (B := Posix.SharedLibraryPosix L) fd id).
  - apply blind_handle_.
  - apply posix_nativeLoad_blind.
  - apply posix_nativeUnload_blind.
  - apply posix_rawGetSymbol_blind.
  - reflexivity.
Qed.

Lemma windows_run_blind (K : Windows.Kernel32) (fd : bool -> bool) (ops : list Op)
    (m : Machine Windows.World) :
  run (B := Windows.SharedLibraryWindows K) ops (frame fd id m)
  = (fst (run (B := Windows.SharedLibraryWindows K) ops m),
     frame fd id (snd (run (B := Windows.SharedLibraryWindows K) ops m))).
Proof.
  apply (blind_run (B := Windows.SharedLibraryWindows K) fd id).
  - apply blind_handle_.
  - apply windows_nativeLoad_blind.
  - apply windows_nativeUnload_blind.
  - apply windows_rawGetSymbol_blind.
  - reflexivity.
Qed.

(** What blindness of a run gives for two handles built on one path with
    opposite flags. *)
Lemma opposite_flags_agree {W} (runs : Machine W -> list (Result Value) * Machine W)
    (path : string) (delayLoad : bool) (w : W) (mu : gmap N pointer) :
  (forall fd m, runs (frame fd id m) = (fst (runs m), frame fd id (snd (runs m)))) ->
  let a := runs (mkMachine (SharedLibraryBase_ctor path delayLoad) w mu) in
  let b := runs (mkMachine (SharedLibraryBase_ctor path (negb delayLoad)) w mu) in
  fst a = fst b /\ os (snd a) = os (snd b) /\ mem (snd a) = mem (snd b) /\
  libPath_ (this (snd a)) = libPath_ (this (snd b)) /\
  flag_ (this (snd a)) = flag_ (this (snd b)) /\
  handle_ (this (snd a)) = handle_ (this (snd b)) /\
  delayLoad_ (this (snd a)) = delayLoad /\
  delayLoad_ (this (snd b)) = negb delayLoad.
Proof.
  intros Hblind a b.
  pose proof (Hblind negb (mkMachine (SharedLibraryBase_ctor path delayLoad) w mu)) as Hb.
  change (frame negb id (mkMachine (SharedLibraryBase_ctor path delayLoad) w mu))
    with (mkMachine (SharedLibraryBase_ctor path (negb delayLoad)) w mu) in Hb.
  pose proof (Hblind (fun _ => delayLoad)
                (mkMachine (SharedLibraryBase_ctor path delayLoad) w mu)) as Ha.
  change (frame (fun _ => delayLoad) id (mkMachine (SharedLibraryBase_ctor path delayLoad) w mu))
    with (mkMachine (SharedLibraryBase_ctor path delayLoad) w mu) in Ha.
  fold a in Ha, Hb. fold b in Hb.
  assert (Hd : delayLoad_ (this (snd a)) = delayLoad).
  { rewrite Ha at 1. reflexivity. }
  rewrite Hb. simpl. rewrite Hd. repeat split.
Qed.

(** C10. Two handles built on the same path with opposite [delayLoad]
    values, in the same linker state and with the same caller variables,
    answer every sequence of public calls alike: the same returned values
    and thrown messages call by call, and final states that agree on the
    linker, the caller's variables, the path, the guard and the native
    handle. The stored flag itself is what it was at construction. This
    holds on the POSIX and on the Windows backend. *)
Theorem delayLoad_never_read (path : string) (delayLoad : bool) (mu : gmap N pointer)
    (ops : list Op) :
  (forall (L : Posix.Linker) (w : Posix.World),
     let a := run (B := Posix.SharedLibraryPosix L) ops
                (mkMachine (SharedLibraryBase_ctor path delayLoad) w mu) in
     let b := run (B := Posix.SharedLibraryPosix L) ops
                (mkMachine (SharedLibraryBase_ctor path (negb delayLoad)) w mu) in
     fst a = fst b /\ os (snd a) = os (snd b) /\ mem (snd a) = mem (snd b) /\
     libPath_ (this (snd a)) = libPath_ (this (snd b)) /\
     flag_ (this (snd a)) = flag_ (this (snd b)) /\
     handle_ (this (snd a)) = handle_ (this (snd b)) /\
     delayLoad_ (this (snd a)) = delayLoad /\
     delayLoad_ (this (snd b)) = negb delayLoad) /\
  (forall (K : Windows.Kernel32) (w : Windows.World),
     let a := run (B := Windows.SharedLibraryWindows K) ops
                (mkMachine (SharedLibraryBase_ctor path delayLoad) w mu) in
     let b := run (B := Windows.SharedLibraryWindows K) ops
                (mkMachine (SharedLibraryBase_ctor path (negb delayLoad)) w mu) in
     fst a = fst b /\ os (snd a) = os (snd b) /\ mem (snd a) = mem (snd b) /\
     libPath_ (this (snd a)) = libPath_ (this (snd b)) /\
     flag_ (this (snd a)) = flag_ (this (snd b)) /\
     handle_ (this (snd a)) = handle_ (this (snd b)) /\
     delayLoad_ (this (snd a)) = delayLoad /\
     delayLoad_ (this (snd b)) = negb delayLoad).
Proof.
  split.
  - intros L w. apply (opposite_flags_agree (run (B := Posix.SharedLibraryPosix L) ops)).
    intros fd m. apply posix_run_blind.
  - intros K w. apply (opposite_flags_agree (run (B := Windows.SharedLibraryWindows K) ops)).
    intros fd m. apply windows_run_blind.
Qed.

(** ** Batch binding *)

Lemma write_all_cons (p : N) (slots : list N) (v : pointer) (vs : list pointer)
    (mu : gmap N pointer) :
  write_all (p :: slots) (v :: vs) mu = write_all slots vs (<[p := v]> mu).
Proof. reflexivity. Qed.

Lemma write_all_other (slots : list N) (vs : list pointer) (mu : gmap N pointer) (p : N) :
  p ∉ take (length vs) slots -> write_all slots vs mu !! p = mu !! p.
Proof.
  revert vs mu. induction slots as [|q slots IH]; intros [|v vs] mu Hp;
    try reflexivity.
  rewrite write_all_cons. simpl in Hp. apply not_elem_of_cons in Hp as [Hne Hp].
  rewrite IH by exact Hp. apply lookup_insert_ne. congruence.
Qed.

Lemma write_all_written (slots : list N) (vs : list pointer) (mu : gmap N pointer)
    (i : nat) (p : N) (v : pointer) :
  NoDup slots -> slots !! i = Some p -> vs !! i = Some v ->
  write_all slots vs mu !! p = Some v.
Proof.
  revert vs mu i. induction slots as [|q slots IH]; intros [|w vs] mu i Hnd Hp Hv;
    try discriminate.
  rewrite write_all_cons. apply NoDup_cons in Hnd as [Hq Hnd].
  destruct i as [|i]; simpl in *.
  - injection Hp as ->. injection Hv as ->.
    rewrite write_all_other; [apply lookup_insert_eq |].
    intros Hin. apply Hq. apply elem_of_take in Hin as (j & Hj & _).
    eapply list_elem_of_lookup_2, Hj.
  - eapply IH; eassumption.
Qed.

Lemma write_all_slots (bs : list _FuncBinding) (vs : list pointer)
    (mu : gmap N pointer) :
  NoDup (map ptr bs) ->
  forall (i : nat) (b : _FuncBinding), bs !! i = Some b ->
    write_all (map ptr bs) vs mu !! ptr b
    = if decide (i < length vs) then vs !! i else mu !! ptr b.
Proof.
  intros Hnd i b Hb.
  assert (Hslot : map ptr bs !! i = Some (ptr b)).
  { rewrite list_lookup_fmap, Hb. reflexivity. }
  destruct (decide (i < length vs)) as [Hlt|Hge].
  - destruct (lookup_lt_is_Some_2 vs i Hlt) as [v Hv]. rewrite Hv.
    eapply write_all_written; eassumption.
  - apply write_all_other. intros Hin.
    apply elem_of_take in Hin as (j & Hj & Hjlt).
    pose proof (NoDup_lookup _ _ _ _ Hnd Hslot Hj). lia.
Qed.

Lemma frame_set_mem {W} (mu : gmap N pointer) (m : Machine W) :
  frame id (fun _ => mu) m = set_mem mu m.
Proof. destruct m as [[path d f h] w mu0]. reflexivity. Qed.

(** [batchLoad] against [get_each], for any backend whose [get] neither
    looks at the caller's variables nor has undefined behaviour. *)
Section BatchLoad.
Context {W : Type} `{B : Backend W}.
Hypothesis get_set_mem : forall nm mu m,
  get nm (set_mem mu m) = (fst (get nm m), set_mem mu (snd (get nm m))).
Hypothesis get_defined : forall nm m, fst (get nm m) <> Undefined.

Lemma batchLoad_get_each (bs : list _FuncBinding) (mu : gmap N pointer) (m : Machine W) :
  let '(vs, (r, m_end)) := get_each (map name bs) m in
  batchLoad bs (set_mem mu m) = (r, set_mem (write_all (map ptr bs) vs mu) m_end).
Proof.
  revert mu m. induction bs as [|b bs IH]; intros mu m; [reflexivity |].
  cbn [map get_each batchLoad]. rewrite bind_run.
  unfold batchLoad_one. rewrite bind_run, get_set_mem.
  destruct (get (name b) m) as [[v|e|] m1]; cbn [fst snd]; try reflexivity.
  specialize (IH (<[ptr b := v]> mu) m1).
  destruct (get_each (map name bs) m1) as [vs [r m_end]].
  rewrite write_all_cons. exact IH.
Qed.

Lemma get_each_length (names : list string) (m : Machine W) :
  let '(vs, (r, _)) := get_each names m in
  match r with
  | Ok _ => length vs = length names
  | Throw _ => length vs < length names
  | Undefined => False
  end.
Proof.
  revert m. induction names as [|nm names IH]; intros m; [reflexivity |].
  cbn [get_each]. pose proof (get_defined nm m) as Hd.
  destruct (get nm m) as [[v|e|] m1]; cbn [fst] in Hd.
  - specialize (IH m1). destruct (get_each names m1) as [vs [[u|e|] m_end]]; simpl in *; lia.
  - simpl. lia.
  - contradiction.
Qed.

Lemma get_each_stops (bs : list _FuncBinding) (m : Machine W) :
  let '(vs, (r, m_end)) := get_each (map name bs) m in
  match r with
  | Throw what =>
      exists b, bs !! length vs = Some b /\
        get (name b) (snd (snd (get_each (map name (take (length vs) bs)) m)))
        = (Throw what, m_end)
  | _ => True
  end.
Proof.
  revert m. induction bs as [|b bs IH]; intros m; [exact I |].
  cbn [map get_each]. destruct (get (name b) m) as [[v|e|] m1] eqn:Hg.
  - specialize (IH m1). destruct (get_each (map name bs) m1) as [vs [[u|e|] m_end]];
      [exact I | | exact I].
    destruct IH as (b' & Hb' & Hget). exists b'. split; [exact Hb' |].
    cbn [length take map get_each]. rewrite Hg.
    destruct (get_each (map name (take (length vs) bs)) m1) as [vs' end']. exact Hget.
  - exists b. split; [reflexivity | exact Hg].
  - exact I.
Qed.
End BatchLoad.

Section PosixGet.
Import Posix PosixTrace.
Variable L : Linker.
Local Abbreviation P := (SharedLibraryPosix L).

Lemma posix_get_set_mem (nm : string) (mu : gmap N pointer) (m : Machine World) :
  get (B := P) nm (set_mem mu m)
  = (fst (get (B := P) nm m), set_mem mu (snd (get (B := P) nm m))).
Proof.
  rewrite <- !frame_set_mem.
  apply (blind_get (B := P) id (fun _ => mu)).
  - apply posix_nativeLoad_blind.
  - apply posix_rawGetSymbol_blind.
Qed.

Lemma posix_get_defined (nm : string) (m : Machine World) :
  fst (get (B := P) nm m) <> Undefined.
Proof.
  rewrite get_run. unfold ensureLoaded, call_once.
  assert (Hraw : forall m1,
    fst (match posix_rawGetSymbol L nm m1 with
         | (Ok p, m2) => if is_null p then (Throw (symbol_error nm), m2) else (Ok p, m2)
         | (Throw e, m2) => (Throw e, m2)
         | (Undefined, m2) => (Undefined, m2)
         end) <> Undefined).
  { intros m1. rewrite rawGetSymbol_run. simpl.
    destruct (is_null (handle_ (this m1))); simpl; [discriminate |].
    destruct (ld_sym L _ _ _) as [p|e]; simpl; [| discriminate].
    destruct (is_null p); discriminate. }
  destruct (flag_ (this m)); [apply Hraw |].
  rewrite loadNow_run. destruct (isLoaded (this m)); simpl; [apply Hraw |].
  rewrite nativeLoad_run. simpl.
  destruct (ld_open L _ _ _); simpl; [apply Hraw | discriminate].
Qed.
End PosixGet.

(** C5. [batchLoad] on the POSIX backend is the run of individual [get]
    calls on the descriptors' names, in the order given, that stops at the
    first failure: it ends as that run ends, with the same object and linker
    state, and the caller's variables are the initial ones with the pointers
    resolved before the stop written to their slots. It returns when every
    descriptor resolved and throws, at position [k], what the [get] of the
    descriptor at position [k] throws. When the slots are pairwise distinct,
    the slot of each descriptor before [k] holds its resolved pointer and the
    slot of each descriptor at or after [k] holds what it held before the
    call. *)
Theorem batchLoad_in_order_fail_fast (L : Posix.Linker) (bs : list _FuncBinding)
    (m : Machine Posix.World) :
  let P := Posix.SharedLibraryPosix L in
  let '(vs, (r, m_end)) := get_each (B := P) (map name bs) m in
  let k := length vs in
  let mu' := write_all (map ptr bs) vs (mem m) in
  batchLoad (B := P) bs m = (r, set_mem mu' m_end) /\
  match r with
  | Ok _ => k = length bs
  | Throw what =>
      k < length bs /\
      exists b, bs !! k = Some b /\
        get (B := P) (name b)
          (snd (snd (get_each (B := P) (map name (take k bs)) m)))
        = (Throw what, m_end)
  | Undefined => False
  end /\
  (NoDup (map ptr bs) ->
   forall (i : nat) (b : _FuncBinding), bs !! i = Some b ->
     mu' !! ptr b = if decide (i < k) then vs !! i else mem m !! ptr b).
Proof.
  intros P. subst P.
  pose proof (batchLoad_get_each (posix_get_set_mem L) bs (mem m) m) as Hrun.
  pose proof (get_each_length (posix_get_defined L) (map name bs) m) as Hlen.
  pose proof (get_each_stops (B := Posix.SharedLibraryPosix L) bs m) as Hstop.
  destruct (get_each (map name bs) m) as [vs [r m_end]].
  intros k mu'. subst k mu'.
  rewrite length_map in Hlen.
  split; [| split].
  - destruct m as [o w mu]. exact Hrun.
  - destruct r as [u|what|]; [exact Hlen | split; [exact Hlen | exact Hstop] | exact Hlen].
  - apply write_all_slots.
Qed.

Lemma batchLoad_in_order_fail_fast_witness :
  NoDup (map ptr [bind "cos" 1; bind "tan" 2; bind "sin" 3]) /\
  write_all [1; 2; 3]%N [4200%N] (mem (Fixture.fresh Fixture.libm_path false)) !! 3%N
  = Some 33%N.
Proof.
  assert (Hnd : NoDup (map ptr [bind "cos" 1; bind "tan" 2; bind "sin" 3])).
  { apply (bool_decide_unpack _). vm_compute. exact I. }
  split; [exact Hnd |].
  exact (proj2 (proj2 (batchLoad_in_order_fail_fast Fixture.linker
                         [bind "cos" 1; bind "tan" 2; bind "sin" 3]
                         (Fixture.fresh Fixture.libm_path false)))
           Hnd 2 (bind "sin" 3) eq_refl).
Defined.

(** ** Moving a handle *)

(** C1, on the code. The defaulted move constructor of lines 66-68 is deleted,
    the [std::once_flag] member having no move or copy constructor, so no
    move of a handle yields a destination at all. Were the flag movable in
    any way, the memberwise move would still copy the raw [handle_]: the
    source keeps its native handle and reports loaded exactly when it did
    before, instead of being left with a null handle. *)
Theorem move_keeps_source_handle (residue : string -> string) (src : SharedLibraryBase) :
  Move.defaulted_move_deleted = true /\
  Move.move_construct residue src = None /\
  (forall dst, Move.move_assign residue dst src = None) /\
  forall move_flag : bool -> option (bool * bool),
    match Move.memberwise_move residue move_flag src with
    | Some (dst, src') =>
        handle_ dst = handle_ src /\
        handle_ src' = handle_ src /\
        isLoaded src' = isLoaded src
    | None => True
    end.
Proof.
  split; [reflexivity | split; [reflexivity | split; [reflexivity |]]].
  intros move_flag. unfold Move.memberwise_move. simpl.
  destruct (move_flag (flag_ src)) as [[f1 f2]|]; [| exact I].
  repeat split.
Qed.

(** The same at a loaded handle, with a flag that moves by copy: the source
    still holds the native handle 4096 and still reports loaded. *)
Lemma move_of_loaded_handle :
  Move.move_construct (fun _ => "") (this Fixture.loaded) = None /\
  Move.memberwise_move (fun _ => "") (fun f => Some (f, f)) (this Fixture.loaded)
  = Some (mkBase "libm.so.6" false false 4096, mkBase "" false false 4096) /\
  isLoaded (mkBase "" false false 4096) = true.
Proof. repeat split. Qed.

(** ** The Windows backend, call by call *)

Section WindowsRuns.
Import Windows WindowsTrace.
Variable K : Kernel32.
Local Abbreviation Win := (SharedLibraryWindows K).

Lemma win_nativeLoad_run (m : Machine World) :
  windows_nativeLoad K m =
  let o := this m in
  let wPath := wc_str (widenPath K (libPath_ o)) in
  match k_LoadLibraryW K (os m) wPath with
  | Some h =>
      (Ok tt, mkMachine (mkBase (libPath_ o) (delayLoad_ o) (flag_ o) (Npos h))
                (EvLoadLibraryW wPath (Npos h) :: os m) (mem m))
  | None =>
      (Throw ("LoadLibraryW failed " +:+ dash +:+ " " +:+ c_str (libPath_ o)),
       mkMachine o (EvLoadLibraryW wPath nullptr :: os m) (mem m))
  end.
Proof. exec. destruct (k_LoadLibraryW K _ _); reflexivity. Qed.

Lemma win_nativeUnload_run (m : Machine World) :
  windows_nativeUnload m =
  let o := this m in
  if is_null (handle_ o) then (Ok tt, m)
  else (Ok tt, mkMachine (mkBase (libPath_ o) (delayLoad_ o) (flag_ o) nullptr)
                 (EvFreeLibrary (handle_ o) :: os m) (mem m)).
Proof. exec. destruct (is_null (handle_ (this m))); reflexivity. Qed.

Lemma win_rawGetSymbol_run (nm : string) (m : Machine World) :
  windows_rawGetSymbol K nm m =
  let h := handle_ (this m) in
  if is_null h then (Ok nullptr, m)
  else
    let p := k_GetProcAddress K (os m) h nm in
    (Ok p, mkMachine (this m) (EvGetProcAddress h nm p :: os m) (mem m)).
Proof. exec. destruct (is_null (handle_ (this m))); reflexivity. Qed.

Lemma win_loadNow_run (m : Machine World) :
  loadNow (B := Win) m =
  if isLoaded (this m) then (Ok tt, m) else windows_nativeLoad K m.
Proof.
  unfold loadNow. rewrite bind_run. unfold member at 1. simpl.
  destruct (isLoaded (this m)); [reflexivity |].
  rewrite bind_run. change (nativeLoad (Backend := Win)) with (windows_nativeLoad K).
  rewrite win_nativeLoad_run. simpl.
  destruct (k_LoadLibraryW K _ _); reflexivity.
Qed.

Lemma win_unload_run (m : Machine World) :
  unload (B := Win) m =
  let o := this m in
  if isLoaded o then
    (Ok tt, mkMachine (mkBase (libPath_ o) (delayLoad_ o) (flag_ o) nullptr)
              (EvFreeLibrary (handle_ o) :: os m) (mem m))
  else (Ok tt, m).
Proof.
  unfold unload. rewrite bind_run. unfold member at 1. simpl.
  unfold isLoaded. destruct (is_null (handle_ (this m))) eqn:Hn; simpl; [reflexivity |].
  rewrite bind_run. change (nativeUnload (Backend := Win)) with windows_nativeUnload.
  rewrite win_nativeUnload_run. simpl. rewrite Hn. reflexivity.
Qed.



Lemma win_get_set_mem (nm : string) (mu : gmap N pointer) (m : Machine World) :
  get (B := Win) nm (set_mem mu m)
  = (fst (get (B := Win) nm m), set_mem mu (snd (get (B := Win) nm m))).
Proof.
  rewrite <- !frame_set_mem.
  apply (blind_get (B := Win) id (fun _ => mu)).
  - apply windows_nativeLoad_blind.
  - apply windows_rawGetSymbol_blind.
Qed.


Lemma win_loads_run (ops : list Op) (m : Machine World) :
  flag_ (this m) = true ->
  flag_ (this (snd (run (B := Win) ops m))) = true /\
  LoadLibraryW_calls (os (snd (run (B := Win) ops m)))
  <= LoadLibraryW_calls (os m) + loadNow_calls ops.
Proof.
  apply (loads_run (B := Win) LoadLibraryW_calls).
  - intros m0 Hf. change (nativeLoad (Backend := Win)) with (windows_nativeLoad K).
    rewrite win_nativeLoad_run. simpl.
    destruct (k_LoadLibraryW K _ _); simpl;
      (split; [exact Hf | unfold LoadLibraryW_calls; simpl; lia]).
  - intros m0 Hf. change (nativeUnload (Backend := Win)) with windows_nativeUnload.
    rewrite win_nativeUnload_run. simpl.
    destruct (is_null _); simpl; (split; [exact Hf | unfold LoadLibraryW_calls; simpl; lia]).
  - intros nm m0 Hf.
    change (rawGetSymbol (Backend := Win) nm) with (windows_rawGetSymbol K nm).
    rewrite win_rawGetSymbol_run. simpl.
    destruct (is_null _); simpl; (split; [exact Hf | unfold LoadLibraryW_calls; simpl; lia]).
Qed.
End WindowsRuns.

(** ** The Windows backend: loading, lookup and batch binding *)

(** X1. [loadNow()] on Windows: nothing happens on a loaded handle.
    Otherwise it makes one [LoadLibraryW] call, on the widened path as a wide
    C string, and what kernel32 answers decides the outcome: with a module
    the call returns and the object holds exactly that module, nothing else
    of it changed; without one the call throws "LoadLibraryW failed", the
    separator and the stored path as a C string, and leaves the object as it
    was. It never has undefined behaviour. *)
Theorem win_loadNow_atomic (K : Windows.Kernel32) (m : Machine Windows.World) :
  if isLoaded (this m)
  then loadNow (B := Windows.SharedLibraryWindows K) m = (Ok tt, m)
  else
    let wPath := wc_str (Windows.widenPath K (libPath_ (this m))) in
    match Windows.k_LoadLibraryW K (os m) wPath with
    | Some h =>
        loadNow (B := Windows.SharedLibraryWindows K) m
        = (Ok tt,
           mkMachine
             (mkBase (libPath_ (this m)) (delayLoad_ (this m)) (flag_ (this m)) (Npos h))
             (Windows.EvLoadLibraryW wPath (Npos h) :: os m) (mem m))
    | None =>
        loadNow (B := Windows.SharedLibraryWindows K) m
        = (Throw ("LoadLibraryW failed " +:+ dash +:+ " " +:+ c_str (libPath_ (this m))),
           mkMachine (this m) (Windows.EvLoadLibraryW wPath nullptr :: os m) (mem m))
    end /\
    match loadNow (B := Windows.SharedLibraryWindows K) m with
    | (Ok _, m') => isLoaded (this m') = true
    | (Throw what, m') =>
        isLoaded (this m') = false /\ this m' = this m /\ mem m' = mem m
    | (Undefined, _) => False
    end.
Proof.
  rewrite win_loadNow_run. destruct (isLoaded (this m)) eqn:Hl; [reflexivity |].
  rewrite win_nativeLoad_run. cbv zeta.
  destruct (Windows.k_LoadLibraryW K _ _) as [h|]; simpl.
  - split; reflexivity.
  - split; [reflexivity |]. repeat split; assumption.
Qed.

(** X2. [unload()] on Windows: one [FreeLibrary] on a loaded handle, nothing on
    a handle that is not loaded, and a null handle afterwards; a second
    call changes nothing. *)
Theorem win_unload_idempotent (K : Windows.Kernel32) (m : Machine Windows.World) :
  let Win := Windows.SharedLibraryWindows K in
  let m1 := snd (unload (B := Win) m) in
  fst (unload (B := Win) m) = Ok tt /\
  isLoaded (this m1) = false /\
  (if isLoaded (this m)
   then os m1 = Windows.EvFreeLibrary (handle_ (this m)) :: os m
   else m1 = m) /\
  unload (B := Win) m1 = (Ok tt, m1).
Proof.
  intros Win m1. subst m1 Win.
  assert (Hnot : isLoaded (this (snd (unload (B := Windows.SharedLibraryWindows K) m)))
                 = false).
  { rewrite win_unload_run. simpl.
    destruct (isLoaded (this m)) eqn:Hl; [reflexivity | exact Hl]. }
  repeat split.
  - rewrite win_unload_run. simpl. destruct (isLoaded (this m)); reflexivity.
  - exact Hnot.
  - rewrite win_unload_run. simpl. destruct (isLoaded (this m)); reflexivity.
  - rewrite (win_unload_run K (snd _)). simpl. rewrite Hnot. reflexivity.
Qed.





(** X5. Once the guard has fired on Windows it stays fired through any public
    calls, [ensureLoaded()] changes nothing, and [LoadLibraryW] is called at
    most once per explicit [loadNow()]. *)
Theorem win_ensureLoaded_once_fired (K : Windows.Kernel32) (m : Machine Windows.World)
    (ops : list Op) :
  flag_ (this m) = true ->
  let Win := Windows.SharedLibraryWindows K in
  let m' := snd (run (B := Win) ops m) in
  flag_ (this m') = true /\
  ensureLoaded (B := Win) m' = (Ok tt, m') /\
  WindowsTrace.LoadLibraryW_calls (os m')
  <= WindowsTrace.LoadLibraryW_calls (os m) + loadNow_calls ops.
Proof.
  intros Hf Win m'. subst m' Win.
  destruct (win_loads_run K ops m Hf) as [H1 H2].
  repeat split; [exact H1 | apply call_once_fired, H1 | exact H2].
Qed.

Lemma win_ensureLoaded_once_fired_witness :
  flag_ (this Fixture.win_loaded) = true /\
  flag_ (this (snd (run (B := Windows.SharedLibraryWindows
                             Fixture.kernel32)
                      [OpUnload; OpEnsureLoaded]
                      Fixture.win_loaded))) = true.
Proof.
  split; [reflexivity |].
  exact (proj1 (win_ensureLoaded_once_fired
                  Fixture.kernel32
                  Fixture.win_loaded
                  [OpUnload; OpEnsureLoaded] eq_refl)).
Defined.


(** ** Invariants kept by every sequence of public calls *)

Section Keeps.
Context {W : Type} `{B : Backend W}.
Variable I : Machine W -> Prop.
Variable writable : N -> Prop.

Lemma keeps_ret {A} (a : A) : keeps I (mret a : M W A).
Proof. intros m Hm. exact Hm. Qed.

Lemma keeps_member {A} (f : SharedLibraryBase -> A) : keeps I (member (W := W) f).
Proof. intros m Hm. exact Hm. Qed.

Lemma keeps_throwLastError {A} (api : string) (extra : option string) :
  keeps I (throwLastError (W := W) (A := A) api extra).
Proof. intros m Hm. exact Hm. Qed.

Lemma keeps_bind {A C} (c : M W A) (k : A -> M W C) :
  keeps I c -> (forall a, keeps I (k a)) -> keeps I (c ≫= k).
Proof.
  intros Hc Hk m Hm. rewrite bind_run. specialize (Hc m Hm).
  destruct (c m) as [[a|e|] m1]; simpl in *; [apply Hk, Hc | exact Hc | exact Hc].
Qed.

Hypothesis I_set_flag_ : forall b, keeps I (set_flag_ b).
Hypothesis I_store : forall p v, writable p -> keeps I (store p v).
Hypothesis I_loadNow : keeps I loadNow.
Hypothesis I_unload : keeps I unload.
Hypothesis I_rawGetSymbol : forall nm, keeps I (rawGetSymbol nm).

Lemma keeps_ensureLoaded : keeps I ensureLoaded.
Proof.
  intros m Hm. unfold ensureLoaded, call_once.
  destruct (flag_ (this m)); [exact Hm |].
  specialize (I_loadNow m Hm).
  destruct (loadNow m) as [[u|e|] m1]; simpl in *; [| exact I_loadNow ..].
  apply (I_set_flag_ true), I_loadNow.
Qed.

Lemma keeps_get (nm : string) : keeps I (get nm).
Proof.
  unfold get. apply keeps_bind; [apply keeps_ensureLoaded | intros _].
  apply keeps_bind; [apply I_rawGetSymbol | intros p].
  destruct (is_null p); [apply keeps_throwLastError | apply keeps_ret].
Qed.

Lemma keeps_get_out (nm : string) (out : N) : writable out -> keeps I (get_out nm out).
Proof.
  intros Hw. unfold get_out. apply keeps_bind; [apply keeps_get | intros p].
  apply I_store, Hw.
Qed.

Lemma keeps_batchLoad (bs : list _FuncBinding) :
  Forall writable (map ptr bs) -> keeps I (batchLoad bs).
Proof.
  induction bs as [|b bs IH]; intros Hw; simpl; [apply keeps_ret |].
  apply Forall_cons in Hw as [Hb Hbs].
  apply keeps_bind; [| intros _; apply IH, Hbs].
  unfold batchLoad_one. apply keeps_bind; [apply keeps_get | intros v].
  apply I_store, Hb.
Qed.

Lemma keeps_call (op : Op) : Forall writable (slots_of [op]) -> keeps I (call op).
Proof.
  intros Hw. destruct op; simpl in *;
    (apply keeps_bind; [| intros ?; apply keeps_ret]).
  - apply I_loadNow.
  - apply keeps_ensureLoaded.
  - apply I_unload.
  - apply keeps_member.
  - apply keeps_member.
  - apply keeps_get.
  - apply keeps_get_out. apply Forall_cons in Hw as [Hw _]. exact Hw.
  - apply keeps_batchLoad. rewrite app_nil_r in Hw. exact Hw.
Qed.

Lemma keeps_run (ops : list Op) (m : Machine W) :
  Forall writable (slots_of ops) -> I m -> I (snd (run ops m)).
Proof.
  revert m. induction ops as [|op ops IH]; intros m Hw Hm; [exact Hm |].
  assert (Hop : Forall writable (slots_of [op]) /\ Forall writable (slots_of ops)).
  { destruct op; simpl in *; try (split; [constructor | exact Hw]).
    - apply Forall_cons in Hw as [H1 H2]. split; [repeat constructor; exact H1 | exact H2].
    - apply Forall_app in Hw as [H1 H2]. split; [rewrite app_nil_r; exact H1 | exact H2]. }
  destruct Hop as [Hop Hrest].
  pose proof (keeps_call op Hop m Hm) as H1. cbn [run].
  destruct (call op m) as [[a|e|] m1]; simpl in *; [| | exact H1];
    specialize (IH m1 Hrest H1); destruct (run ops m1); exact IH.
Qed.
End Keeps.

Section PosixKeeps.
Import Posix PosixTrace PosixDiscipline.
Variable L : Linker.
Local Abbreviation P := (SharedLibraryPosix L).

Lemma discipline_loadNow : keeps (handle_discipline L) (loadNow (B := P)).
Proof.
  intros m [Hh Hd]. rewrite loadNow_run.
  destruct (isLoaded (this m)) eqn:Hl; [split; assumption |].
  assert (Hn : is_null (held (trace (os m))) = true).
  { rewrite <- Hh. unfold isLoaded in Hl. apply negb_false_iff in Hl. exact Hl. }
  rewrite nativeLoad_run. simpl.
  destruct (ld_open L _ _ _) as [h|e]; unfold handle_discipline; simpl;
    rewrite Hd, Hn, !bool_decide_eq_true_2 by reflexivity; simpl.
  - split; reflexivity.
  - split; [exact Hh | reflexivity].
Qed.

Lemma discipline_unload : keeps (handle_discipline L) (unload (B := P)).
Proof.
  intros m [Hh Hd]. rewrite unload_run. simpl.
  destruct (isLoaded (this m)) eqn:Hl; [| split; assumption].
  unfold handle_discipline. simpl. unfold isLoaded in Hl.
  rewrite Hd, Hl, bool_decide_eq_true_2 by exact Hh. split; reflexivity.
Qed.

Lemma discipline_rawGetSymbol (nm : string) :
  keeps (handle_discipline L) (posix_rawGetSymbol L nm).
Proof.
  intros m [Hh Hd]. rewrite rawGetSymbol_run. simpl.
  destruct (is_null (handle_ (this m))) eqn:Hn; [split; assumption |].
  destruct (ld_sym L _ _ _) as [p|e]; unfold handle_discipline; simpl;
    rewrite Hd, Hn, bool_decide_eq_true_2 by exact Hh; (split; [exact Hh | reflexivity]).
Qed.

Lemma discipline_run (ops : list Op) (m : Machine World) :
  handle_discipline L m -> handle_discipline L (snd (run (B := P) ops m)).
Proof.
  apply (keeps_run (B := P) (handle_discipline L) (fun _ => True)).
  - intros b m0 H0. exact H0.
  - intros p v _ m0 H0. exact H0.
  - apply discipline_loadNow.
  - apply discipline_unload.
  - apply discipline_rawGetSymbol.
  - apply Forall_forall. intros; exact I.
Qed.

(** In a disciplined history the calls that opened a handle are the
    [dlclose] calls plus the handle still held. *)
Lemma disciplined_balance (path : string) (flags : Z) (t : list Event) :
  disciplined path flags t = true ->
  count is_opened t = count is_dlclose t + (if is_null (held t) then 0 else 1).
Proof.
  induction t as [|e t IH]; [reflexivity |]. simpl.
  intros Hd. apply andb_prop in Hd as [Hd He]. specialize (IH Hd).
  destruct e as [p f ret|h|h sym ret|err]; simpl.
  - apply andb_prop in He as [_ He]. rewrite He in IH.
    destruct (is_null ret) eqn:Hr; simpl; rewrite ?He, ?Hr; lia.
  - apply andb_prop in He as [Hh He]. apply bool_decide_eq_true_1 in He.
    rewrite <- He in IH. apply negb_true_iff in Hh. rewrite Hh in IH. lia.
  - exact IH.
  - exact IH.
Qed.
End PosixKeeps.

Section WindowsKeeps.
Import Windows WindowsTrace WindowsDiscipline.
Variable K : Kernel32.
Local Abbreviation Win := (SharedLibraryWindows K).

Lemma win_discipline_loadNow : keeps (handle_discipline K) (loadNow (B := Win)).
Proof.
  intros m [Hh Hd]. rewrite win_loadNow_run.
  destruct (isLoaded (this m)) eqn:Hl; [split; assumption |].
  assert (Hn : is_null (held (os m)) = true).
  { rewrite <- Hh. unfold isLoaded in Hl. apply negb_false_iff in Hl. exact Hl. }
  rewrite win_nativeLoad_run. simpl.
  destruct (k_LoadLibraryW K _ _) as [h|]; unfold handle_discipline; simpl;
    rewrite Hd, Hn, !bool_decide_eq_true_2 by reflexivity; simpl.
  - split; reflexivity.
  - split; [exact Hh | reflexivity].
Qed.

Lemma win_discipline_unload : keeps (handle_discipline K) (unload (B := Win)).
Proof.
  intros m [Hh Hd]. rewrite win_unload_run. simpl.
  destruct (isLoaded (this m)) eqn:Hl; [| split; assumption].
  unfold handle_discipline. simpl. unfold isLoaded in Hl.
  rewrite Hd, Hl, bool_decide_eq_true_2 by exact Hh. split; reflexivity.
Qed.

Lemma win_discipline_rawGetSymbol (nm : string) :
  keeps (handle_discipline K) (windows_rawGetSymbol K nm).
Proof.
  intros m [Hh Hd]. rewrite win_rawGetSymbol_run. simpl.
  destruct (is_null (handle_ (this m))) eqn:Hn; [split; assumption |].
  unfold handle_discipline. simpl.
  rewrite Hd, Hn, bool_decide_eq_true_2 by exact Hh. split; [exact Hh | reflexivity].
Qed.

Lemma win_discipline_run (ops : list Op) (m : Machine World) :
  handle_discipline K m -> handle_discipline K (snd (run (B := Win) ops m)).
Proof.
  apply (keeps_run (B := Win) (handle_discipline K) (fun _ => True)).
  - intros b m0 H0. exact H0.
  - intros p v _ m0 H0. exact H0.
  - apply win_discipline_loadNow.
  - apply win_discipline_unload.
  - apply win_discipline_rawGetSymbol.
  - apply Forall_forall. intros; exact I.
Qed.
End WindowsKeeps.

(** What the three backend-bound calls leave alone: the path and the
    caller's variables. *)
Section Footprint.
Variable L : Posix.Linker.
Variable K : Windows.Kernel32.
Local Abbreviation P := (Posix.SharedLibraryPosix L).
Local Abbreviation Win := (Windows.SharedLibraryWindows K).

Lemma posix_footprint (m : Machine Posix.World) (nm : string) :
  (libPath_ (this (snd (loadNow (B := P) m))) = libPath_ (this m) /\
   mem (snd (loadNow (B := P) m)) = mem m) /\
  (libPath_ (this (snd (unload (B := P) m))) = libPath_ (this m) /\
   mem (snd (unload (B := P) m)) = mem m) /\
  (libPath_ (this (snd (Posix.posix_rawGetSymbol L nm m))) = libPath_ (this m) /\
   mem (snd (Posix.posix_rawGetSymbol L nm m)) = mem m).
Proof.
  rewrite loadNow_run, unload_run, rawGetSymbol_run, nativeLoad_run. simpl.
  repeat split.
  - destruct (isLoaded (this m)); [reflexivity |].
    destruct (Posix.ld_open L _ _ _); reflexivity.
  - destruct (isLoaded (this m)); [reflexivity |].
    destruct (Posix.ld_open L _ _ _); reflexivity.
  - destruct (isLoaded (this m)); reflexivity.
  - destruct (isLoaded (this m)); reflexivity.
  - destruct (is_null _); [reflexivity |]. destruct (Posix.ld_sym L _ _ _); reflexivity.
  - destruct (is_null _); [reflexivity |]. destruct (Posix.ld_sym L _ _ _); reflexivity.
Qed.

Lemma win_footprint (m : Machine Windows.World) (nm : string) :
  (libPath_ (this (snd (loadNow (B := Win) m))) = libPath_ (this m) /\
   mem (snd (loadNow (B := Win) m)) = mem m) /\
  (libPath_ (this (snd (unload (B := Win) m))) = libPath_ (this m) /\
   mem (snd (unload (B := Win) m)) = mem m) /\
  (libPath_ (this (snd (Windows.windows_rawGetSymbol K nm m))) = libPath_ (this m) /\
   mem (snd (Windows.windows_rawGetSymbol K nm m)) = mem m).
Proof.
  rewrite win_loadNow_run, win_unload_run, win_rawGetSymbol_run, win_nativeLoad_run. simpl.
  repeat split.
  - destruct (isLoaded (this m)); [reflexivity |].
    destruct (Windows.k_LoadLibraryW K _ _); reflexivity.
  - destruct (isLoaded (this m)); [reflexivity |].
    destruct (Windows.k_LoadLibraryW K _ _); reflexivity.
  - destruct (isLoaded (this m)); reflexivity.
  - destruct (isLoaded (this m)); reflexivity.
  - destruct (is_null _); reflexivity.
  - destruct (is_null _); reflexivity.
Qed.

Lemma posix_keeps_run (I : Machine Posix.World -> Prop) (writable : N -> Prop)
    (ops : list Op) (m : Machine Posix.World) :
  (forall m1 m2, libPath_ (this m1) = libPath_ (this m2) -> mem m1 = mem m2 ->
                 I m1 -> I m2) ->
  (forall p v, writable p -> keeps I (store p v)) ->
  Forall writable (slots_of ops) -> I m -> I (snd (run (B := P) ops m)).
Proof.
  intros Hext Hstore. apply (keeps_run (B := P) I writable).
  - intros b m0 H0. eapply Hext; [| | exact H0]; reflexivity.
  - exact Hstore.
  - intros m0 H0. destruct (posix_footprint m0 "") as [[H1 H2] _].
    eapply Hext; [| | exact H0]; symmetry; assumption.
  - intros m0 H0. destruct (posix_footprint m0 "") as (_ & [H1 H2] & _).
    eapply Hext; [| | exact H0]; symmetry; assumption.
  - intros nm m0 H0. destruct (posix_footprint m0 nm) as (_ & _ & [H1 H2]).
    eapply Hext; [| | exact H0]; symmetry; assumption.
Qed.

Lemma win_keeps_run (I : Machine Windows.World -> Prop) (writable : N -> Prop)
    (ops : list Op) (m : Machine Windows.World) :
  (forall m1 m2, libPath_ (this m1) = libPath_ (this m2) -> mem m1 = mem m2 ->
                 I m1 -> I m2) ->
  (forall p v, writable p -> keeps I (store p v)) ->
  Forall writable (slots_of ops) -> I m -> I (snd (run (B := Win) ops m)).
Proof.
  intros Hext Hstore. apply (keeps_run (B := Win) I writable).
  - intros b m0 H0. eapply Hext; [| | exact H0]; reflexivity.
  - exact Hstore.
  - intros m0 H0. destruct (win_footprint m0 "") as [[H1 H2] _].
    eapply Hext; [| | exact H0]; symmetry; assumption.
  - intros m0 H0. destruct (win_footprint m0 "") as (_ & [H1 H2] & _).
    eapply Hext; [| | exact H0]; symmetry; assumption.
  - intros nm m0 H0. destruct (win_footprint m0 nm) as (_ & _ & [H1 H2]).
    eapply Hext; [| | exact H0]; symmetry; assumption.
Qed.
End Footprint.

(** ** The discipline of handles *)

(** X8. On the POSIX backend every sequence of public calls keeps the object
    and the history of linker calls in step: [handle_] is the handle obtained
    from [dlopen] and not yet passed to [dlclose] (null when there is none),
    every [dlopen] was made on the stored path as a C string (what
    [libPath_.c_str()] shows, up to the first NUL) with the flags of
    [nativeLoad] and while the object held no handle, and every [dlsym] and
    [dlclose] was made on the handle held at that moment, never on null and
    never on a handle already passed to [dlclose]. *)
Theorem posix_handle_discipline (L : Posix.Linker) (ops : list Op)
    (m : Machine Posix.World) :
  PosixDiscipline.handle_discipline L m ->
  PosixDiscipline.handle_discipline L
    (snd (run (B := Posix.SharedLibraryPosix L) ops m)).
Proof.
  intros [Hh Hd]. apply discipline_run. split; [exact Hh | exact Hd].
Qed.

Lemma posix_handle_discipline_witness :
  PosixDiscipline.handle_discipline Fixture.linker (Fixture.fresh Fixture.libm_path true) /\
  PosixDiscipline.handle_discipline Fixture.linker
    (snd (run (B := Posix.SharedLibraryPosix Fixture.linker)
            [OpGet "cos"; OpUnload; OpUnload; OpLoadNow; OpGet "tan"]
            (Fixture.fresh Fixture.libm_path true))).
Proof.
  assert (H0 : PosixDiscipline.handle_discipline Fixture.linker
                 (Fixture.fresh Fixture.libm_path true)) by (split; reflexivity).
  split; [exact H0 |].
  exact (posix_handle_discipline Fixture.linker
           [OpGet "cos"; OpUnload; OpUnload; OpLoadNow; OpGet "tan"]
           (Fixture.fresh Fixture.libm_path true) H0).
Defined.

(** X9. The same on the Windows backend: [handle_] is the module obtained
    from [LoadLibraryW] and not yet passed to [FreeLibrary], every
    [LoadLibraryW] was made on the widened stored path as a wide C string
    (what [wPath.c_str()] shows, up to the first zero code unit) while the
    object held no module, and every [GetProcAddress] and [FreeLibrary] was
    made on the module held at that moment, never on null and never on a
    module already passed to [FreeLibrary]. *)
Theorem windows_handle_discipline (K : Windows.Kernel32) (ops : list Op)
    (m : Machine Windows.World) :
  WindowsDiscipline.handle_discipline K m ->
  WindowsDiscipline.handle_discipline K
    (snd (run (B := Windows.SharedLibraryWindows K) ops m)).
Proof.
  intros [Hh Hd]. apply win_discipline_run. split; [exact Hh | exact Hd].
Qed.

Lemma windows_handle_discipline_witness :
  WindowsDiscipline.handle_discipline Fixture.kernel32 Fixture.win_fresh /\
  WindowsDiscipline.handle_discipline Fixture.kernel32
    (snd (run (B := Windows.SharedLibraryWindows Fixture.kernel32)
            [OpGet "cos"; OpUnload; OpLoadNow] Fixture.win_fresh)).
Proof.
  assert (H0 : WindowsDiscipline.handle_discipline Fixture.kernel32 Fixture.win_fresh)
    by (split; reflexivity).
  split; [exact H0 |].
  exact (windows_handle_discipline Fixture.kernel32 [OpGet "cos"; OpUnload; OpLoadNow]
           Fixture.win_fresh H0).
Defined.

(** X19. Destroying a handle makes no call of the linker. So after any
    sequence of public calls on a handle built in a linker with an empty
    history, the [dlopen] calls that gave a handle are the [dlclose] calls
    made, plus one when the handle is loaded as it is destroyed: that
    library is left open. *)
Theorem destruction_releases_nothing (L : Posix.Linker) (path : string)
    (delayLoad : bool) (pending : option string) (mu : gmap N pointer) (ops : list Op) :
  let m := snd (run (B := Posix.SharedLibraryPosix L) ops
                  (mkMachine (makeSharedLibrary path delayLoad)
                             (Posix.mkWorld pending []) mu)) in
  SharedLibraryBase_dtor m = (Ok tt, m) /\
  PosixTrace.count PosixDiscipline.is_opened (Posix.trace (os m))
  = PosixTrace.dlcloses m + (if isLoaded (this m) then 1 else 0).
Proof.
  intros m. split; [reflexivity |].
  assert (H0 : PosixDiscipline.handle_discipline L
                 (mkMachine (makeSharedLibrary path delayLoad)
                            (Posix.mkWorld pending []) mu)) by (split; reflexivity).
  destruct (discipline_run L ops _ H0) as [Hh Hd]. fold m in Hh, Hd.
  rewrite (disciplined_balance _ _ _ Hd). unfold PosixTrace.dlcloses, isLoaded.
  rewrite Hh. destruct (is_null _); reflexivity.
Qed.

(** ** What a sequence of calls leaves alone *)

(** X10. No public call changes the stored path: after any sequence of
    calls, on either backend, [libPath_] is what it was. *)
Theorem libPath_immutable (ops : list Op) :
  (forall (L : Posix.Linker) (m : Machine Posix.World),
     libPath_ (this (snd (run (B := Posix.SharedLibraryPosix L) ops m)))
     = libPath_ (this m)) /\
  (forall (K : Windows.Kernel32) (m : Machine Windows.World),
     libPath_ (this (snd (run (B := Windows.SharedLibraryWindows K) ops m)))
     = libPath_ (this m)).
Proof.
  split.
  - intros L m.
    apply (posix_keeps_run L (fun m' => libPath_ (this m') = libPath_ (this m))
             (fun _ => True)).
    + intros m1 m2 Hp _ H1. rewrite <- Hp. exact H1.
    + intros p v _ m0 H0. exact H0.
    + apply Forall_forall. intros; exact I.
    + reflexivity.
  - intros K m.
    apply (win_keeps_run K (fun m' => libPath_ (this m') = libPath_ (this m))
             (fun _ => True)).
    + intros m1 m2 Hp _ H1. rewrite <- Hp. exact H1.
    + intros p v _ m0 H0. exact H0.
    + apply Forall_forall. intros; exact I.
    + reflexivity.
Qed.

(** X11. A caller's variable that no call of a sequence names as a
    destination (the [out] of a [get(name, out)], the slot of a descriptor
    of a [batchLoad]) holds after the sequence what it held before, on either
    backend and whatever the calls did or threw. *)
Theorem untouched_slots (ops : list Op) (p : N) :
  p ∉ slots_of ops ->
  (forall (L : Posix.Linker) (m : Machine Posix.World),
     mem (snd (run (B := Posix.SharedLibraryPosix L) ops m)) !! p = mem m !! p) /\
  (forall (K : Windows.Kernel32) (m : Machine Windows.World),
     mem (snd (run (B := Windows.SharedLibraryWindows K) ops m)) !! p = mem m !! p).
Proof.
  intros Hp.
  assert (Hw : Forall (fun q => q <> p) (slots_of ops)).
  { apply Forall_forall. intros q Hq ->. exact (Hp Hq). }
  split.
  - intros L m.
    apply (posix_keeps_run L (fun m' => mem m' !! p = mem m !! p) (fun q => q <> p)).
    + intros m1 m2 _ Hm H1. rewrite <- Hm. exact H1.
    + intros q v Hq m0 H0. simpl. rewrite lookup_insert_ne by exact Hq. exact H0.
    + exact Hw.
    + reflexivity.
  - intros K m.
    apply (win_keeps_run K (fun m' => mem m' !! p = mem m !! p) (fun q => q <> p)).
    + intros m1 m2 _ Hm H1. rewrite <- Hm. exact H1.
    + intros q v Hq m0 H0. simpl. rewrite lookup_insert_ne by exact Hq. exact H0.
    + exact Hw.
    + reflexivity.
Qed.

Lemma untouched_slots_witness :
  (3%N ∉ slots_of [OpGetOut "cos" 1; OpBatchLoad [bind "sin" 2; bind "tan" 1]; OpUnload]) /\
  mem (snd (run (B := Posix.SharedLibraryPosix Fixture.linker)
              [OpGetOut "cos" 1; OpBatchLoad [bind "sin" 2; bind "tan" 1]; OpUnload]
              (Fixture.fresh Fixture.libm_path false))) !! 3%N
  = mem (Fixture.fresh Fixture.libm_path false) !! 3%N.
Proof.
  assert (H0 : 3%N ∉ slots_of [OpGetOut "cos" 1;
                                OpBatchLoad [bind "sin" 2; bind "tan" 1]; OpUnload]).
  { apply (bool_decide_unpack _). vm_compute. exact I. }
  split; [exact H0 |].
  exact (proj1 (untouched_slots _ 3%N H0) Fixture.linker
           (Fixture.fresh Fixture.libm_path false)).
Defined.

(** ** Composing calls *)

(** X12. [batchLoad] composes: binding the descriptors [xs] followed by
    [ys] in one call is binding [xs] in one call and then [ys] in another,
    for every backend; and a [batchLoad] of the single descriptor
    [bind(name, out)] is [get(name, out)]. *)
Theorem batchLoad_append {W : Type} (B : Backend W) (xs ys : list _FuncBinding)
    (m : Machine W) :
  batchLoad (B := B) (xs ++ ys)%list m
  = (batchLoad (B := B) xs;; batchLoad (B := B) ys) m /\
  forall (nm : string) (out : N),
    batchLoad (B := B) [bind nm out] m = get_out (B := B) nm out m.
Proof.
  split.
  - revert m. induction xs as [|x xs IH]; intros m.
    + rewrite bind_run. reflexivity.
    + cbn [app batchLoad]. rewrite !bind_run.
      destruct (batchLoad_one x m) as [[u|e|] m1]; [| reflexivity ..].
      rewrite IH, bind_run. reflexivity.
  - intros nm out. cbn [batchLoad]. rewrite bind_run.
    change (batchLoad_one (bind nm out)) with (get_out (B := B) nm out).
    destruct (get_out nm out m) as [[[]|e|] m1]; reflexivity.
Qed.

(** X13. [get(name, out)] writes the destination exactly when the lookup
    succeeds, and then with the pointer [get<_Func>(name)] returns; when the
    lookup throws, the same exception leaves and the caller's variables are
    as they were. The lookup itself never writes them. On either backend. *)
Theorem get_out_writes_on_success (nm : string) (out : N) :
  (forall (L : Posix.Linker) (m : Machine Posix.World),
     let '(r, m') := get (B := Posix.SharedLibraryPosix L) nm m in
     mem m' = mem m /\
     get_out (B := Posix.SharedLibraryPosix L) nm out m
     = match r with
       | Ok p => (Ok tt, set_mem (<[out := p]> (mem m)) m')
       | Throw e => (Throw e, m')
       | Undefined => (Undefined, m')
       end) /\
  (forall (K : Windows.Kernel32) (m : Machine Windows.World),
     let '(r, m') := get (B := Windows.SharedLibraryWindows K) nm m in
     mem m' = mem m /\
     get_out (B := Windows.SharedLibraryWindows K) nm out m
     = match r with
       | Ok p => (Ok tt, set_mem (<[out := p]> (mem m)) m')
       | Throw e => (Throw e, m')
       | Undefined => (Undefined, m')
       end).
Proof.
  split.
  - intros L m. pose proof (posix_get_set_mem L nm (mem m) m) as Hg.
    replace (set_mem (mem m) m) with m in Hg by (destruct m; reflexivity).
    unfold get_out. rewrite bind_run.
    destruct (get nm m) as [r m'] eqn:Hget. simpl in Hg.
    assert (Hmem : mem m' = mem m) by (injection Hg as ->; reflexivity).
    split; [exact Hmem |].
    destruct r as [p|e|]; [| reflexivity ..].
    unfold store, set_mem. rewrite Hmem. reflexivity.
  - intros K m. pose proof (win_get_set_mem K nm (mem m) m) as Hg.
    replace (set_mem (mem m) m) with m in Hg by (destruct m; reflexivity).
    unfold get_out. rewrite bind_run.
    destruct (get nm m) as [r m'] eqn:Hget. simpl in Hg.
    assert (Hmem : mem m' = mem m) by (injection Hg as ->; reflexivity).
    split; [exact Hmem |].
    destruct r as [p|e|]; [| reflexivity ..].
    unfold store, set_mem. rewrite Hmem. reflexivity.
Qed.

(** X14. On the POSIX backend [loadNow()] then [unload()] is a round trip:
    when the handle is not loaded and the linker opens the stored path, read
    as a C string, the pair returns normally, the object and the caller's
    variables are as before, and the linker has seen one [dlopen] of that C
    string and one [dlclose] of the handle it gave. *)
Theorem loadNow_unload_round_trip (L : Posix.Linker) (m : Machine Posix.World)
    (h : positive) :
  isLoaded (this m) = false ->
  Posix.ld_open L (Posix.trace (os m)) (c_str (libPath_ (this m)))
    (PosixTrace.load_flags L)
  = Posix.Opened h ->
  let P := Posix.SharedLibraryPosix L in
  let '(r, m') := (loadNow (B := P);; unload (B := P)) m in
  r = Ok tt /\ this m' = this m /\ mem m' = mem m /\
  Posix.trace (os m')
  = Posix.EvDlclose (Npos h)
      :: Posix.EvDlopen (c_str (libPath_ (this m))) (PosixTrace.load_flags L) (Npos h)
      :: Posix.trace (os m).
Proof.
  intros Hl Hopen P. subst P.
  rewrite bind_run, loadNow_run, Hl, nativeLoad_run. simpl. rewrite Hopen.
  rewrite unload_run. simpl.
  repeat split.
  destruct m as [[path d f hd] w mu]. simpl in *.
  unfold isLoaded in Hl. simpl in Hl. apply negb_false_iff, N.eqb_eq in Hl.
  rewrite Hl. reflexivity.
Qed.

Lemma loadNow_unload_round_trip_witness :
  isLoaded (this (Fixture.fresh Fixture.libm_path false)) = false /\
  fst ((loadNow (B := Posix.SharedLibraryPosix Fixture.linker);;
        unload (B := Posix.SharedLibraryPosix Fixture.linker))
         (Fixture.fresh Fixture.libm_path false)) = Ok tt.
Proof.
  split; [reflexivity |].
  exact (proj1 (loadNow_unload_round_trip Fixture.linker
                  (Fixture.fresh Fixture.libm_path false) 4096 eq_refl eq_refl)).
Defined.

(** X15. [loadNow()] checks what the backend did: for any backend, when
    [nativeLoad] returns normally but leaves the handle null, [loadNow()]
    throws, and the message is "loadNow() failed failed" (the word is in the
    caller's text and appended again by [throwLastError]). *)
Theorem loadNow_checks_backend {W : Type} (B : Backend W) (m m' : Machine W) :
  isLoaded (this m) = false ->
  nativeLoad (Backend := B) m = (Ok tt, m') ->
  isLoaded (this m') = false ->
  loadNow (B := B) m = (Throw "loadNow() failed failed", m').
Proof.
  intros Hl Hn Hl'. unfold loadNow. rewrite bind_run. unfold member at 1. simpl.
  rewrite Hl, bind_run, Hn, bind_run. unfold member. simpl. rewrite Hl'. reflexivity.
Qed.

Lemma loadNow_checks_backend_witness :
  isLoaded (this idle_fresh) = false /\
  loadNow (B := idle_backend) idle_fresh = (Throw "loadNow() failed failed", idle_fresh).
Proof.
  split; [reflexivity |].
  exact (loadNow_checks_backend idle_backend idle_fresh idle_fresh
           eq_refl eq_refl eq_refl).
Defined.

(** ** Error state of the linker *)

(** X16. [rawGetSymbol] of the POSIX backend on a loaded handle is not
    misled by a message left pending in the linker: it returns the address
    [dlsym] gives, or null when [dlsym] fails, whatever was pending before
    the call; and it leaves no message pending. The object and the caller's
    variables are untouched. *)
Theorem rawGetSymbol_ignores_stale_error (L : Posix.Linker) (m : Machine Posix.World)
    (nm : string) :
  isLoaded (this m) = true ->
  let '(r, m') := Posix.posix_rawGetSymbol L nm m in
  r = Ok (match Posix.ld_sym L
                  (Posix.EvDlerror (Posix.dl_error (os m)) :: Posix.trace (os m))
                  (handle_ (this m)) nm with
          | Posix.Address p => p
          | Posix.SymFailed _ => nullptr
          end) /\
  Posix.dl_error (os m') = None /\ this m' = this m /\ mem m' = mem m.
Proof.
  intros Hl. rewrite rawGetSymbol_run. simpl.
  unfold isLoaded in Hl. apply negb_true_iff in Hl. rewrite Hl.
  destruct (Posix.ld_sym L _ _ _); repeat split.
Qed.

Lemma rawGetSymbol_ignores_stale_error_witness :
  isLoaded (this loaded_with_stale_error) = true /\
  fst (Posix.posix_rawGetSymbol Fixture.linker "cos" loaded_with_stale_error)
  = Ok 4200%N.
Proof.
  split; [reflexivity |].
  exact (proj1 (rawGetSymbol_ignores_stale_error Fixture.linker
                  loaded_with_stale_error "cos" eq_refl)).
Defined.

(** X17. [unload()] of the POSIX backend does not look at what [dlclose]
    returns: when [dlclose] fails on a loaded handle, [unload()] still
    returns normally with the native handle null, and the linker's message
    stays pending, unread. *)
Theorem unload_ignores_dlclose_failure (L : Posix.Linker) (m : Machine Posix.World)
    (msg : string) :
  isLoaded (this m) = true ->
  Posix.ld_close L (Posix.trace (os m)) (handle_ (this m)) = Some msg ->
  let '(r, m') := unload (B := Posix.SharedLibraryPosix L) m in
  r = Ok tt /\ isLoaded (this m') = false /\
  Posix.dl_error (os m') = Some msg /\
  Posix.trace (os m') = Posix.EvDlclose (handle_ (this m)) :: Posix.trace (os m).
Proof.
  intros Hl Hc. rewrite unload_run. simpl. rewrite Hl, Hc. repeat split.
Qed.

Lemma unload_ignores_dlclose_failure_witness :
  isLoaded (this loaded_with_stale_error) = true /\
  Posix.ld_close stubborn_linker (Posix.trace (os loaded_with_stale_error))
    (handle_ (this loaded_with_stale_error)) = Some "library is busy" /\
  fst (unload (B := Posix.SharedLibraryPosix stubborn_linker) loaded_with_stale_error)
  = Ok tt.
Proof.
  split; [reflexivity | split; [reflexivity |]].
  exact (proj1 (unload_ignores_dlclose_failure stubborn_linker loaded_with_stale_error
                  "library is busy" eq_refl eq_refl)).
Defined.

(** ** Lazy loading happens once *)



(** ** Widening the path *)

(** X7. [widenPath] gives the empty wide string for the empty path without
    asking for a conversion, and for any other path shorter than 2^31 bytes
    it gives what [MultiByteToWideChar] converts from all the bytes of the
    path: the byte count survives the cast to [int], and a conversion that
    fails (size 0) gives the empty wide string. *)
Theorem widenPath_converts_whole_path (K : Windows.Kernel32) (s : string) :
  Windows.widenPath K "" = [] /\
  (s <> "" -> (Z.of_nat (String.length s) < 2 ^ 31)%Z ->
   Windows.to_int (String.length s) = Z.of_nat (String.length s) /\
   Windows.widenPath K s
   = Windows.k_MultiByteToWideChar K s (Z.of_nat (String.length s))).
Proof.
  split; [reflexivity |].
  intros Hs Hlen.
  assert (Hint : Windows.to_int (String.length s) = Z.of_nat (String.length s)).
  { unfold Windows.to_int. rewrite Z.mod_small by lia.
    destruct (Z.ltb_spec (Z.of_nat (String.length s)) (2 ^ 31)); [reflexivity | lia]. }
  split; [exact Hint |].
  unfold Windows.widenPath. apply String.eqb_neq in Hs. rewrite Hs, Hint.
  destruct (Windows.k_MultiByteToWideChar K s _) as [|c cs]; reflexivity.
Qed.

Lemma widenPath_converts_whole_path_witness :
  "m.dll" <> "" /\ (Z.of_nat (String.length "m.dll") < 2 ^ 31)%Z /\
  Windows.widenPath Fixture.kernel32 "m.dll"
  = Windows.k_MultiByteToWideChar Fixture.kernel32 "m.dll" 5.
Proof.
  assert (H1 : "m.dll" <> "") by discriminate.
  assert (H2 : (Z.of_nat (String.length "m.dll") < 2 ^ 31)%Z) by (vm_compute; reflexivity).
  split; [exact H1 | split; [exact H2 |]].
  exact (proj2 (proj2 (widenPath_converts_whole_path Fixture.kernel32 "m.dll") H1 H2)).
Defined.

(** X20. [nativeLoad] of the Windows backend does not check the conversion
    of the path: when the path is empty, or [MultiByteToWideChar] converts
    nothing, it still calls [LoadLibraryW], with the empty wide string, and
    the outcome is that call's alone: the handle it gives, or the error
    "LoadLibraryW failed" with the stored path as a C string and the object
    unchanged. *)
Theorem win_load_of_unconvertible_path (K : Windows.Kernel32)
    (m : Machine Windows.World) :
  libPath_ (this m) = "" \/
  Windows.k_MultiByteToWideChar K (libPath_ (this m))
    (Windows.to_int (String.length (libPath_ (this m)))) = [] ->
  match Windows.k_LoadLibraryW K (os m) [] with
  | Some h =>
      Windows.windows_nativeLoad K m
      = (Ok tt,
         mkMachine
           (mkBase (libPath_ (this m)) (delayLoad_ (this m)) (flag_ (this m)) (Npos h))
           (Windows.EvLoadLibraryW [] (Npos h) :: os m) (mem m))
  | None =>
      Windows.windows_nativeLoad K m
      = (Throw ("LoadLibraryW failed " +:+ dash +:+ " " +:+ c_str (libPath_ (this m))),
         mkMachine (this m) (Windows.EvLoadLibraryW [] nullptr :: os m) (mem m))
  end.
Proof.
  intros Hpath. rewrite win_nativeLoad_run. cbv zeta.
  assert (Hw : Windows.widenPath K (libPath_ (this m)) = []).
  { unfold Windows.widenPath. destruct Hpath as [-> | Hc]; [reflexivity |].
    rewrite Hc. destruct (String.eqb _ _); reflexivity. }
  rewrite Hw. cbn [wc_str].
  destruct (Windows.k_LoadLibraryW K _ _) as [h|]; reflexivity.
Qed.

Lemma win_load_of_unconvertible_path_witness :
  (libPath_ (this Fixture.win_fresh) = "" \/
   Windows.k_MultiByteToWideChar Fixture.kernel32 (libPath_ (this Fixture.win_fresh))
     (Windows.to_int (String.length (libPath_ (this Fixture.win_fresh)))) = []) /\
  Windows.windows_nativeLoad Fixture.kernel32 Fixture.win_fresh
  = (Throw ("LoadLibraryW failed " +:+ dash +:+ " m.dll"),
     mkMachine (this Fixture.win_fresh)
       (Windows.EvLoadLibraryW [] nullptr :: os Fixture.win_fresh)
       (mem Fixture.win_fresh)).
Proof.
  assert (H0 : libPath_ (this Fixture.win_fresh) = "" \/
               Windows.k_MultiByteToWideChar Fixture.kernel32
                 (libPath_ (this Fixture.win_fresh))
                 (Windows.to_int (String.length (libPath_ (this Fixture.win_fresh)))) = [])
    by (right; reflexivity).
  split; [exact H0 |].
  exact (win_load_of_unconvertible_path Fixture.kernel32 Fixture.win_fresh H0).
Defined.

(** A stored path with a NUL inside: the linker is asked for the part before
    it, and the library loads. *)
Example path_with_nul_is_cut :
  c_str ("libm.so.6" +:+ String Ascii.zero "junk") = "libm.so.6" /\
  fst (loadNow (B := Posix.SharedLibraryPosix Fixture.linker)
         (Fixture.fresh ("libm.so.6" +:+ String Ascii.zero "junk") false)) = Ok tt /\
  Posix.trace (os (snd (loadNow (B := Posix.SharedLibraryPosix Fixture.linker)
                          (Fixture.fresh ("libm.so.6" +:+ String Ascii.zero "junk") false))))
  = [Posix.EvDlopen "libm.so.6" 1 4096].
Proof. repeat split. Qed.
